(** * LEGO Spike Prime mouse controller: a shallow embedding of
      [spike_controller.py] and the properties of its line framing,
      telemetry decoding, click logic and configuration file. *)

From Stdlib Require Import Decimal String Ascii List ZArith NArith Lia Bool.
From Stdlib Require Import Strings.Byte SpecFloat.
From Stdlib Require DecimalZ DecimalPos DecimalFacts.
Import ListNotations.

Local Open Scope Z_scope.

(** ** Byte sequences ([bytes], [bytearray]) *)

(** [b'\r'], the delimiter of the serial protocol. *)
Definition CR : byte := x0d.

(** [not data] on a byte sequence: true exactly on the empty one. *)
Definition is_empty {A} (s : list A) : bool :=
  match s with [] => true | _ :: _ => false end.

(** [sep in s], for a one-byte separator. *)
Definition contains (sep : byte) (s : list byte) : bool :=
  existsb (Byte.eqb sep) s.

(** [s.split(sep)] for a one-byte separator: [n] occurrences of [sep]
    give [n + 1] segments, empty ones included. *)
Fixpoint split (sep : byte) (s : list byte) : list (list byte) :=
  match s with
  | [] => [[]]
  | b :: s' =>
      if Byte.eqb b sep then [] :: split sep s'
      else match split sep s' with
           | seg :: segs => (b :: seg) :: segs
           | [] => [[b]]
           end
  end.

(** [s.rfind(sep)]: the index of the last occurrence of [sep], [-1]
    when there is none. *)
Fixpoint rfind (sep : byte) (s : list byte) : Z :=
  match s with
  | [] => -1
  | b :: s' =>
      let r := rfind sep s' in
      if 0 <=? r then r + 1
      else if Byte.eqb b sep then 0 else -1
  end.

(** [sep.join(segs)] for a one-byte separator. *)
Fixpoint join (sep : byte) (segs : list (list byte)) : list byte :=
  match segs with
  | [] => []
  | [seg] => seg
  | seg :: rest => seg ++ sep :: join sep rest
  end.

(** [s[i:]] for an index [i >= 0]. *)
Definition slice_from (i : Z) (s : list byte) : list byte :=
  skipn (Z.to_nat i) s.

(** ** Line framer (monitor_device, lines 148-157 and 193) *)

(** [lines[:-1]] with the empty lines skipped ([if not line: continue]):
    the lines the loop body decodes, in order. *)
Definition complete_lines (buf : list byte) : list (list byte) :=
  filter (fun line => negb (is_empty line)) (removelast (split CR buf)).

(** [recv_buf[recv_buf.rfind(b'\r')+1:]]. *)
Definition remainder (buf : list byte) : list byte :=
  slice_from (rfind CR buf + 1) buf.

(** One pass of the framing code on the chunk [data] returned by the
    read: the lines handed to the decoder and the new receive buffer. *)
Definition frame (recv_buf data : list byte)
  : list (list byte) * list byte :=
  if is_empty data then ([], recv_buf)
  else
    let buf := recv_buf ++ data in
    if contains CR buf then (complete_lines buf, remainder buf)
    else ([], buf).

(** The framer driven by a sequence of chunks, one per loop iteration. *)
Fixpoint frame_chunks (recv_buf : list byte) (chunks : list (list byte))
  : list (list byte) * list byte :=
  match chunks with
  | [] => ([], recv_buf)
  | data :: rest =>
      let '(lines, buf) := frame recv_buf data in
      let '(lines', buf') := frame_chunks buf rest in
      (lines ++ lines', buf')
  end.

(** ** Python values and exceptions *)

(** The exception classes the decoding code and the session setup
    can meet.  [ValueError] stands for the class itself, which string
    formatting raises; [UnicodeDecodeError] and [JSONDecodeError] are
    subclasses of it, and [KeyError] and [IndexError] of
    [LookupError].  No class of the list is a subclass of
    [JSONDecodeError], [KeyError] or [IndexError], so an [except]
    clause that names these three catches exactly these three. *)
Inductive exn : Set :=
| UnicodeDecodeError
| JSONDecodeError
| RecursionError
| KeyError
| IndexError
| TypeError
| ValueError
| OverflowError
| AttributeError.

Inductive result (A : Type) : Type :=
| Ok (a : A)
| Raise (e : exn).
Arguments Ok {A} a.
Arguments Raise {A} e.

Definition rbind {A B} (r : result A) (k : A -> result B) : result B :=
  match r with
  | Ok a => k a
  | Raise e => Raise e
  end.

Declare Scope result_scope.
Delimit Scope result_scope with result.
Notation "x <- r ;; k" := (rbind r (fun x => k))
  (at level 61, r at next level, right associativity) : result_scope.
Notation "' p <- r ;; k" := (rbind r (fun x => let p := x in k))
  (at level 61, p pattern, r at next level, right associativity) : result_scope.

(** A [str] is a sequence of code points. *)
Definition str := list N.

Definition str_of_string (s : string) : str :=
  map N_of_ascii (list_ascii_of_string s).

Definition str_eqb (a b : str) : bool :=
  if list_eq_dec N.eq_dec a b then true else false.

(** Binary64, the format of a Python [float]. *)
Definition prec : Z := 53.
Definition emax : Z := 1024.

(** The values [json.loads] builds.  A [dict] keeps its keys in
    insertion order and holds each key once. *)
#[local] Unset Elimination Schemes.
Inductive pyval : Type :=
| PNone
| PBool (b : bool)
| PInt (z : Z)
| PFloat (f : spec_float)
| PStr (s : str)
| PList (l : list pyval)
| PDict (d : list (str * pyval)).
#[local] Set Elimination Schemes.

Fixpoint dict_get (d : list (str * pyval)) (k : str) : option pyval :=
  match d with
  | [] => None
  | (k', v) :: d' => if str_eqb k' k then Some v else dict_get d' k
  end.

(** [d[k] = v]: an existing key keeps its place. *)
Fixpoint dict_set (d : list (str * pyval)) (k : str) (v : pyval)
  : list (str * pyval) :=
  match d with
  | [] => [(k, v)]
  | (k', v') :: d' =>
      if str_eqb k' k then (k', v) :: d' else (k', v') :: dict_set d' k v
  end.

(** [dict(pairs)]. *)
Definition dict_of_pairs (pairs : list (str * pyval)) : list (str * pyval) :=
  fold_left (fun d kv => dict_set d (fst kv) (snd kv)) pairs [].

(** *** Numbers *)

(** Comparison of a float with an int, exact as in Python; [None] for
    a NaN, which compares false with everything. *)
Definition float_compare_int (f : spec_float) (n : Z) : option comparison :=
  match f with
  | S754_nan => None
  | S754_infinity s => Some (if s then Lt else Gt)
  | S754_zero _ => Some (0 ?= n)
  | S754_finite s m e =>
      let v := if s then Zneg m else Zpos m in
      Some (if 0 <=? e then v * 2 ^ e ?= n else v ?= n * 2 ^ (- e))
  end.

Definition int_of_bool (b : bool) : Z := if b then 1 else 0.

(** [v == n] for an int [n]. *)
Definition py_eq_int (v : pyval) (n : Z) : bool :=
  match v with
  | PInt z => z =? n
  | PBool b => int_of_bool b =? n
  | PFloat f =>
      match float_compare_int f n with Some Eq => true | _ => false end
  | _ => false
  end.

(** [v >= n] for an int [n]. *)
Definition py_ge_int (v : pyval) (n : Z) : result bool :=
  match v with
  | PInt z => Ok (n <=? z)
  | PBool b => Ok (n <=? int_of_bool b)
  | PFloat f =>
      Ok match float_compare_int f n with
         | Some Eq | Some Gt => true
         | _ => false
         end
  | _ => Raise TypeError
  end.

(** [v < n] for an int [n]. *)
Definition py_lt_int (v : pyval) (n : Z) : result bool :=
  match v with
  | PInt z => Ok (z <? n)
  | PBool b => Ok (int_of_bool b <? n)
  | PFloat f =>
      Ok match float_compare_int f n with
         | Some Lt => true
         | _ => false
         end
  | _ => Raise TypeError
  end.

(** [float(z)] overflows when [z] rounds to a magnitude of [2^1024]. *)
Definition int_too_large_for_float (z : Z) : bool :=
  2 ^ 1024 - 2 ^ 970 <=? Z.abs z.

(** Whether [f"{v:.2f}"] succeeds; the text itself is only displayed. *)
Definition format_2f (v : pyval) : result unit :=
  match v with
  | PInt z => if int_too_large_for_float z then Raise OverflowError else Ok tt
  | PBool _ | PFloat _ => Ok tt
  | PStr _ => Raise ValueError
  | PNone | PList _ | PDict _ => Raise TypeError
  end.

(** *** Subscription and iteration *)

(** [v[key]] for a string key. *)
Definition getitem_str (v : pyval) (key : str) : result pyval :=
  match v with
  | PDict d =>
      match dict_get d key with
      | Some x => Ok x
      | None => Raise KeyError
      end
  | _ => Raise TypeError
  end.

(** [v[i]] for a literal index [i >= 0].  The keys of a parsed JSON
    object are strings, so an int is never a key of a [dict]. *)
Definition getitem_int (v : pyval) (i : nat) : result pyval :=
  match v with
  | PList l =>
      match nth_error l i with
      | Some x => Ok x
      | None => Raise IndexError
      end
  | PStr s =>
      match nth_error s i with
      | Some c => Ok (PStr [c])
      | None => Raise IndexError
      end
  | PDict _ => Raise KeyError
  | PNone | PBool _ | PInt _ | PFloat _ => Raise TypeError
  end.

(** The items [for item in v] goes through. *)
Definition py_iter (v : pyval) : result (list pyval) :=
  match v with
  | PList l => Ok l
  | PStr s => Ok (map (fun c => PStr [c]) s)
  | PDict d => Ok (map (fun kv => PStr (fst kv)) d)
  | PNone | PBool _ | PInt _ | PFloat _ => Raise TypeError
  end.

(** ** [bytes.decode('utf-8')] *)

Local Open Scope N_scope.

Definition in_range (lo hi : N) (b : byte) : bool :=
  (lo <=? Byte.to_N b) && (Byte.to_N b <=? hi).

(** The six payload bits of a continuation byte. *)
Definition cont_bits (b : byte) : N := N.land (Byte.to_N b) 63.

Definition cons_ok (c : N) (r : result str) : result str :=
  match r with
  | Ok s => Ok (c :: s)
  | Raise e => Raise e
  end.

(** The range of the second byte after the lead byte [n0] of a three
    byte sequence: no overlong form and no surrogate. *)
Definition second_of_three (n0 : N) (b1 : byte) : bool :=
  if n0 =? 0xE0 then in_range 0xA0 0xBF b1
  else if n0 =? 0xED then in_range 0x80 0x9F b1
  else in_range 0x80 0xBF b1.

(** The same for a four byte sequence: no overlong form and nothing
    above U+10FFFF. *)
Definition second_of_four (n0 : N) (b1 : byte) : bool :=
  if n0 =? 0xF0 then in_range 0x90 0xBF b1
  else if n0 =? 0xF4 then in_range 0x80 0x8F b1
  else in_range 0x80 0xBF b1.

(** Strict UTF-8 decoding: an ill-formed sequence raises
    [UnicodeDecodeError]. *)
Fixpoint utf8_decode (bs : list byte) : result str :=
  match bs with
  | [] => Ok []
  | b0 :: r0 =>
      let n0 := Byte.to_N b0 in
      if n0 <? 0x80 then cons_ok n0 (utf8_decode r0)
      else if in_range 0xC2 0xDF b0 then
        match r0 with
        | b1 :: r1 =>
            if in_range 0x80 0xBF b1 then
              cons_ok (N.lor (N.shiftl (N.land n0 0x1F) 6) (cont_bits b1))
                      (utf8_decode r1)
            else Raise UnicodeDecodeError
        | _ => Raise UnicodeDecodeError
        end
      else if in_range 0xE0 0xEF b0 then
        match r0 with
        | b1 :: b2 :: r2 =>
            if second_of_three n0 b1 && in_range 0x80 0xBF b2 then
              cons_ok (N.lor (N.shiftl (N.land n0 0x0F) 12)
                         (N.lor (N.shiftl (cont_bits b1) 6) (cont_bits b2)))
                      (utf8_decode r2)
            else Raise UnicodeDecodeError
        | _ => Raise UnicodeDecodeError
        end
      else if in_range 0xF0 0xF4 b0 then
        match r0 with
        | b1 :: b2 :: b3 :: r3 =>
            if second_of_four n0 b1 && in_range 0x80 0xBF b2
               && in_range 0x80 0xBF b3 then
              cons_ok (N.lor (N.shiftl (N.land n0 0x07) 18)
                         (N.lor (N.shiftl (cont_bits b1) 12)
                            (N.lor (N.shiftl (cont_bits b2) 6) (cont_bits b3))))
                      (utf8_decode r3)
            else Raise UnicodeDecodeError
        | _ => Raise UnicodeDecodeError
        end
      else Raise UnicodeDecodeError
  end.

(** ** [json.loads] on a [str] *)

Definition QUOTE : N := 34.
Definition BACKSLASH : N := 92.

(** [WHITESPACE = re.compile(r'[ \t\n\r]*')]. *)
Definition is_ws (c : N) : bool :=
  (c =? 32) || (c =? 9) || (c =? 10) || (c =? 13).

Fixpoint skip_ws (s : str) : str :=
  match s with
  | c :: s' => if is_ws c then skip_ws s' else s
  | [] => []
  end.

Definition hexval (c : N) : option N :=
  if (48 <=? c) && (c <=? 57) then Some (c - 48)
  else if (97 <=? c) && (c <=? 102) then Some (c - 87)
  else if (65 <=? c) && (c <=? 70) then Some (c - 55)
  else None.

(** The value of the four hexadecimal digits of a [\uXXXX] escape. *)
Definition hex4 (h1 h2 h3 h4 : N) : option N :=
  match hexval h1, hexval h2, hexval h3, hexval h4 with
  | Some a, Some b, Some c, Some d => Some (((a * 16 + b) * 16 + c) * 16 + d)
  | _, _, _, _ => None
  end.

(** The one-letter escapes ([BACKSLASH] in [json.decoder]). *)
Definition unescape (e : N) : option N :=
  if e =? QUOTE then Some QUOTE
  else if e =? BACKSLASH then Some BACKSLASH
  else if e =? 47 then Some 47
  else if e =? 98 then Some 8
  else if e =? 102 then Some 12
  else if e =? 110 then Some 10
  else if e =? 114 then Some 13
  else if e =? 116 then Some 9
  else None.

Definition is_high_surrogate (c : N) : bool := (0xD800 <=? c) && (c <=? 0xDBFF).
Definition is_low_surrogate (c : N) : bool := (0xDC00 <=? c) && (c <=? 0xDFFF).

Definition join_surrogates (hi lo : N) : N :=
  0x10000 + N.lor (N.shiftl (hi - 0xD800) 10) (lo - 0xDC00).

Definition cons_str (c : N) (r : result (str * str)) : result (str * str) :=
  match r with
  | Ok (s, rest) => Ok (c :: s, rest)
  | Raise e => Raise e
  end.

(** [scanstring] in strict mode, from just after the opening quote:
    the string and the text after its closing quote. *)
Fixpoint scanstring (s : str) : result (str * str) :=
  match s with
  | [] => Raise JSONDecodeError
  | c :: s1 =>
      if c =? QUOTE then Ok ([], s1)
      else if c =? BACKSLASH then
        match s1 with
        | [] => Raise JSONDecodeError
        | e :: s2 =>
            if e =? 117 then
              match s2 with
              | h1 :: h2 :: h3 :: h4 :: s3 =>
                  match hex4 h1 h2 h3 h4 with
                  | None => Raise JSONDecodeError
                  | Some uni =>
                      if is_high_surrogate uni then
                        match s3 with
                        | b :: u :: s4 =>
                            if (b =? BACKSLASH) && (u =? 117) then
                              match s4 with
                              | k1 :: k2 :: k3 :: k4 :: s5 =>
                                  match hex4 k1 k2 k3 k4 with
                                  | None => Raise JSONDecodeError
                                  | Some uni2 =>
                                      if is_low_surrogate uni2 then
                                        cons_str (join_surrogates uni uni2)
                                                 (scanstring s5)
                                      else cons_str uni (scanstring s3)
                                  end
                              | _ => Raise JSONDecodeError
                              end
                            else cons_str uni (scanstring s3)
                        | _ => cons_str uni (scanstring s3)
                        end
                      else cons_str uni (scanstring s3)
                  end
              | _ => Raise JSONDecodeError
              end
            else
              match unescape e with
              | Some c' => cons_str c' (scanstring s2)
              | None => Raise JSONDecodeError
              end
        end
      else if c <? 0x20 then Raise JSONDecodeError
      else cons_str c (scanstring s1)
  end.

(** *** Numbers: [NUMBER_RE], [int] and [float] *)

Definition digit_of (c : N) : option (uint -> uint) :=
  if c =? 48 then Some D0
  else if c =? 49 then Some D1
  else if c =? 50 then Some D2
  else if c =? 51 then Some D3
  else if c =? 52 then Some D4
  else if c =? 53 then Some D5
  else if c =? 54 then Some D6
  else if c =? 55 then Some D7
  else if c =? 56 then Some D8
  else if c =? 57 then Some D9
  else None.

(** The longest run of digits [0-9] and the text after it. *)
Fixpoint take_digits (s : str) : uint * str :=
  match s with
  | [] => (Nil, [])
  | c :: s' =>
      match digit_of c with
      | Some d => let '(u, rest) := take_digits s' in (d u, rest)
      | None => (Nil, s)
      end
  end.

Definition is_nil (u : uint) : bool :=
  match u with Nil => true | _ => false end.

(** The optional minus sign of [NUMBER_RE]. *)
Definition take_sign (s : str) : bool * str :=
  match s with
  | c :: s' => if c =? 45 then (true, s') else (false, s)
  | [] => (false, s)
  end.

(** The integer group of [NUMBER_RE]: a lone zero, or digits that do
    not start with a zero. *)
Definition take_integer (s : str) : option (uint * str) :=
  match s with
  | [] => None
  | c :: s' =>
      if c =? 48 then Some (D0 Nil, s')
      else
        let '(u, rest) := take_digits s in
        if is_nil u then None else Some (u, rest)
  end.

(** The fraction group of [NUMBER_RE], a dot and at least one digit:
    the digits, [Nil] when the group does not match. *)
Definition take_frac (s : str) : uint * str :=
  match s with
  | c :: s' =>
      if c =? 46 then
        let '(u, rest) := take_digits s' in
        if is_nil u then (Nil, s) else (u, rest)
      else (Nil, s)
  | [] => (Nil, s)
  end.

(** The exponent group of [NUMBER_RE], [e] or [E], an optional sign
    and at least one digit: the sign and the digits. *)
Definition take_exp (s : str) : option (bool * uint) * str :=
  match s with
  | c :: s' =>
      if (c =? 101) || (c =? 69) then
        let '(neg, s'') :=
          match s' with
          | sg :: t =>
              if sg =? 45 then (true, t)
              else if sg =? 43 then (false, t)
              else (false, s')
          | [] => (false, s')
          end in
        let '(u, rest) := take_digits s'' in
        if is_nil u then (None, s) else (Some (neg, u), rest)
      else (None, s)
  | [] => (None, s)
  end.

Local Open Scope Z_scope.

(** The binary64 nearest to [m * 10 ^ e10], ties to even, with the
    sign [neg]: what [float] makes of a decimal literal. *)
Definition float_of_decimal (neg : bool) (m : Z) (e10 : Z) : spec_float :=
  match m with
  | Zpos p =>
      if 0 <=? e10 then
        binary_round prec emax neg (Z.to_pos (Zpos p * 10 ^ e10)) 0
      else
        SFdiv prec emax (S754_finite neg p 0)
              (S754_finite false (Z.to_pos (10 ^ (- e10))) 0)
  | _ => S754_zero neg
  end.

(** The value of a literal that matched [NUMBER_RE]: [int(integer)]
    without fraction and exponent, else [float] of the whole text. *)
Definition number_value (neg : bool) (i f : uint)
           (e : option (bool * uint)) : pyval :=
  match is_nil f, e with
  | true, None => PInt (Z.of_int (if neg then Neg i else Pos i))
  | _, _ =>
      let e10 :=
        match e with
        | Some (eneg, u) => if eneg then - Z.of_uint u else Z.of_uint u
        | None => 0
        end in
      PFloat (float_of_decimal neg (Z.of_uint (Decimal.app i f))
                               (e10 - Z.of_nat (nb_digits f)))
  end.

(** [match_number]: [None] when [NUMBER_RE] does not match at the start
    of [s]. *)
Definition match_number (s : str) : option (pyval * str) :=
  let '(neg, s1) := take_sign s in
  match take_integer s1 with
  | None => None
  | Some (i, s2) =>
      let '(f, s3) := take_frac s2 in
      let '(e, s4) := take_exp s3 in
      Some (number_value neg i f e, s4)
  end.

(** [s.startswith(p)]: the text after the prefix [p]. *)
Fixpoint strip_prefix (p s : str) : option str :=
  match p, s with
  | [], _ => Some s
  | a :: p', b :: s' => if (a =? b)%N then strip_prefix p' s' else None
  | _ :: _, [] => None
  end.

(** *** Values *)

(** The scanner ([scan_once], [JSONArray], [JSONObject]).  The
    recursion follows the nesting of the text and the items of an
    array or object; [fuel] bounds both, and [json_loads] gives as
    much as a text of its length can use. *)
Fixpoint scan_once (fuel : nat) (s : str) : result (pyval * str) :=
  match fuel with
  | O => Raise RecursionError
  | S fuel =>
      match s with
      | [] => Raise JSONDecodeError
      | c :: s' =>
          if (c =? QUOTE)%N then
            ('(x, rest) <- scanstring s' ;; Ok (PStr x, rest))%result
          else if (c =? 123)%N then
            let s1 := skip_ws s' in
            match s1 with
            | c1 :: s2 =>
                if (c1 =? 125)%N then Ok (PDict [], s2)
                else if (c1 =? QUOTE)%N then
                  ('(pairs, rest) <- scan_pairs fuel s2 ;;
                   Ok (PDict (dict_of_pairs pairs), rest))%result
                else Raise JSONDecodeError
            | [] => Raise JSONDecodeError
            end
          else if (c =? 91)%N then
            let s1 := skip_ws s' in
            match s1 with
            | c1 :: s2 =>
                if (c1 =? 93)%N then Ok (PList [], s2)
                else
                  ('(values, rest) <- scan_items fuel s1 ;;
                   Ok (PList values, rest))%result
            | [] => Raise JSONDecodeError
            end
          else
            match strip_prefix (str_of_string "null") s with
            | Some rest => Ok (PNone, rest)
            | None =>
            match strip_prefix (str_of_string "true") s with
            | Some rest => Ok (PBool true, rest)
            | None =>
            match strip_prefix (str_of_string "false") s with
            | Some rest => Ok (PBool false, rest)
            | None =>
            match match_number s with
            | Some r => Ok r
            | None =>
            match strip_prefix (str_of_string "NaN") s with
            | Some rest => Ok (PFloat S754_nan, rest)
            | None =>
            match strip_prefix (str_of_string "Infinity") s with
            | Some rest => Ok (PFloat (S754_infinity false), rest)
            | None =>
            match strip_prefix (str_of_string "-Infinity") s with
            | Some rest => Ok (PFloat (S754_infinity true), rest)
            | None => Raise JSONDecodeError
            end end end end end end end
      end
  end

(** The loop of [JSONArray], before a value. *)
with scan_items (fuel : nat) (s : str) : result (list pyval * str) :=
  match fuel with
  | O => Raise RecursionError
  | S fuel =>
      ('(value, s1) <- scan_once fuel s ;;
       match skip_ws s1 with
       | c :: s2 =>
           if (c =? 93)%N then Ok ([value], s2)
           else if (c =? 44)%N then
             '(values, rest) <- scan_items fuel (skip_ws s2) ;;
             Ok (value :: values, rest)
           else Raise JSONDecodeError
       | [] => Raise JSONDecodeError
       end)%result
  end

(** The loop of [JSONObject], just after the opening quote of a key. *)
with scan_pairs (fuel : nat) (s : str) : result (list (str * pyval) * str) :=
  match fuel with
  | O => Raise RecursionError
  | S fuel =>
      ('(key, s1) <- scanstring s ;;
       match skip_ws s1 with
       | c :: s2 =>
           if (c =? 58)%N then
             '(value, s3) <- scan_once fuel (skip_ws s2) ;;
             match skip_ws s3 with
             | c' :: s4 =>
                 if (c' =? 125)%N then Ok ([(key, value)], s4)
                 else if (c' =? 44)%N then
                   match skip_ws s4 with
                   | q :: s5 =>
                       if (q =? QUOTE)%N then
                         '(pairs, rest) <- scan_pairs fuel s5 ;;
                         Ok ((key, value) :: pairs, rest)
                       else Raise JSONDecodeError
                   | [] => Raise JSONDecodeError
                   end
                 else Raise JSONDecodeError
             | [] => Raise JSONDecodeError
             end
           else Raise JSONDecodeError
       | [] => Raise JSONDecodeError
       end)%result
  end.

(** [json.loads(s)] for a [str]: one value between optional
    whitespace, nothing after it, no byte order mark before it. *)
Definition json_loads (s : str) : result pyval :=
  match s with
  | 0xFEFF%N :: _ => Raise JSONDecodeError
  | _ =>
      ('(obj, rest) <- scan_once (S (2 * length s)) (skip_ws s) ;;
       match skip_ws rest with
       | [] => Ok obj
       | _ :: _ => Raise JSONDecodeError
       end)%result
  end.

(** ** The monitoring loop (monitor_device) *)

(** What the loop does to the outside: [live.update] with the force
    shown, and [pyautogui.click()].  Neither is modelled as raising. *)
Inductive event : Type :=
| Display (force_value : pyval)
| Click.

(** The variables of the loop, and the events so far in order. *)
Record loop_state : Type := {
  recv_buf : list byte;
  is_pressed : bool;
  events : list event
}.

(** [recv_buf = bytearray()], [is_pressed = False]. *)
Definition initial_state : loop_state :=
  {| recv_buf := []; is_pressed := false; events := [] |}.

(** Code that changes the loop's variables and may raise: an exception
    leaves the state as it was when it was raised. *)
Definition M (A : Type) : Type := loop_state -> result A * loop_state.

Definition ret {A} (a : A) : M A := fun st => (Ok a, st).

Definition bind {A B} (m : M A) (k : A -> M B) : M B :=
  fun st =>
    match m st with
    | (Ok a, st') => k a st'
    | (Raise e, st') => (Raise e, st')
    end.

Definition lift {A} (r : result A) : M A := fun st => (r, st).

Definition get_pressed : M bool := fun st => (Ok (is_pressed st), st).

Definition set_pressed (b : bool) : M unit :=
  fun st =>
    (Ok tt, {| recv_buf := recv_buf st; is_pressed := b; events := events st |}).

Definition get_buf : M (list byte) := fun st => (Ok (recv_buf st), st).

Definition set_buf (buf : list byte) : M unit :=
  fun st =>
    (Ok tt, {| recv_buf := buf; is_pressed := is_pressed st; events := events st |}).

Definition emit (e : event) : M unit :=
  fun st =>
    (Ok tt, {| recv_buf := recv_buf st; is_pressed := is_pressed st;
               events := events st ++ [e] |}).

(** [try: body / except caught: pass]. *)
Definition try_pass (body : M unit) (caught : exn -> bool) : M unit :=
  fun st =>
    match body st with
    | (Raise e, st') => if caught e then (Ok tt, st') else (Raise e, st')
    | r => r
    end.

Declare Scope loop_scope.
Delimit Scope loop_scope with loop.
Notation "x <- m ;; k" := (bind m (fun x => k))
  (at level 61, m at next level, right associativity) : loop_scope.
Notation "m ;; k" := (bind m (fun _ => k))
  (at level 61, right associativity) : loop_scope.

(** [for x in xs: body]. *)
Fixpoint for_each {A} (body : A -> M unit) (xs : list A) : M unit :=
  match xs with
  | [] => ret tt
  | x :: xs' => (body x ;; for_each body xs')%loop
  end.

(** *** Click logic (lines 175-188) *)

(** The new [is_pressed] and whether [pyautogui.click()] is called. *)
Definition click_logic (threshold : Z) (force_value : pyval)
           (is_touched pressed : bool) : result (bool * bool) :=
  if threshold =? 1 then
    if is_touched && negb pressed then Ok (true, true)
    else if negb is_touched && pressed then Ok (false, false)
    else Ok (pressed, false)
  else
    (ge <- py_ge_int force_value threshold ;;
     if ge && negb pressed then Ok (true, true)
     else
       lt <- py_lt_int force_value threshold ;;
       if lt && pressed then Ok (false, false)
       else Ok (pressed, false))%result.

(** The click logic over a sequence of readings (force, touched): for
    each reading the state after it and whether it clicked. *)
Fixpoint detect (threshold : Z) (readings : list (pyval * bool))
         (pressed : bool) : result (list (bool * bool)) :=
  match readings with
  | [] => Ok []
  | (force_value, is_touched) :: rest =>
      ('(pressed', click) <- click_logic threshold force_value is_touched pressed ;;
       steps <- detect threshold rest pressed' ;;
       Ok ((pressed', click) :: steps))%result
  end.

(** *** Decoding a line (lines 158-192) *)

(** Lines 170-188 on one reading: the display, then the click logic. *)
Definition handle_reading (threshold : Z) (force_value : pyval)
           (is_touched : bool) : M unit :=
  (lift (format_2f force_value) ;;
   emit (Display force_value) ;;
   pressed <- get_pressed ;;
   r <- lift (click_logic threshold force_value is_touched pressed) ;;
   set_pressed (fst r) ;;
   if snd r then emit Click else ret tt)%loop.

(** The body of [for item in message['p']] (lines 166-188). *)
Definition handle_item (threshold : Z) (item : pyval) : M unit :=
  match item with
  | PList _ =>
      (port <- lift (getitem_int item 0) ;;
       if py_eq_int port 63 then
         values <- lift (getitem_int item 1) ;;
         force_value <- lift (getitem_int values 0) ;;
         values' <- lift (getitem_int item 1) ;;
         touched <- lift (getitem_int values' 1) ;;
         handle_reading threshold force_value (py_eq_int touched 1)
       else ret tt)%loop
  | _ => ret tt
  end.

(** Lines 164-188 on a parsed message. *)
Definition handle_message (threshold : Z) (message : pyval) : M unit :=
  (m <- lift (getitem_str message (str_of_string "m")) ;;
   if py_eq_int m 0 then
     p <- lift (getitem_str message (str_of_string "p")) ;;
     items <- lift (py_iter p) ;;
     for_each (handle_item threshold) items
   else ret tt)%loop.

(** [except (json.JSONDecodeError, KeyError, IndexError)]. *)
Definition caught (e : exn) : bool :=
  match e with
  | JSONDecodeError | KeyError | IndexError => true
  | _ => false
  end.

(** The [try] statement of lines 158-192 on one line. *)
Definition process_line (threshold : Z) (line : list byte) : M unit :=
  try_pass
    (text <- lift (utf8_decode line) ;;
     message <- lift (json_loads text) ;;
     handle_message threshold message)%loop
    caught.

(** The body of [while True] on the chunk [data] that
    [ser.read_until] returned (lines 148-193). *)
Definition monitor_iteration (threshold : Z) (data : list byte) : M unit :=
  if is_empty data then ret tt
  else
    (buf <- get_buf ;;
     set_buf (buf ++ data) ;;
     buf <- get_buf ;;
     if contains CR buf then
       for_each (process_line threshold) (complete_lines buf) ;;
       buf <- get_buf ;;
       set_buf (remainder buf)
     else ret tt)%loop.

(** The loop over the chunks read so far.  An exception that leaves it
    reaches [except Exception] of monitor_device, which ends the
    session. *)
Definition monitor_loop (threshold : Z) (chunks : list (list byte)) : M unit :=
  for_each (monitor_iteration threshold) chunks.

(** monitor_device on the chunks its reads return, from
    [recv_buf = bytearray()] and [is_pressed = False]: the exception
    that ended the loop, if any, which [except Exception] reports
    before the function returns, and the state at that point. *)
Definition monitor_device (threshold : Z) (chunks : list (list byte))
  : option exn * loop_state :=
  match monitor_loop threshold chunks initial_state with
  | (Ok _, st) => (None, st)
  | (Raise e, st) => (Some e, st)
  end.

(** The condition under which a released detector presses: the first
    test of line 176 in instant mode, of line 183 in threshold mode. *)
Definition press_condition (threshold : Z) (reading : pyval * bool) : bool :=
  if threshold =? 1 then snd reading
  else
    match py_ge_int (fst reading) threshold with
    | Ok b => b
    | Raise _ => false
    end.

(** *** Readings of a message *)

(** The reading [(item[1][0], item[1][1] == 1)] of a payload entry
    [[port, [force, touched, ...], ...]] whose port equals 63. *)
Definition entry_reading (item : pyval) : option (pyval * bool) :=
  match item with
  | PList (port :: PList (force_value :: touched :: _) :: _) =>
      if py_eq_int port 63 then Some (force_value, py_eq_int touched 1)
      else None
  | _ => None
  end.

(** The entries the loop body goes through without an exception:
    anything that is not a list, a list with another first element,
    and a list on port 63 with a list of at least two values. *)
Definition entry_ok (item : pyval) : bool :=
  match item with
  | PList [] => false
  | PList (port :: rest) =>
      if py_eq_int port 63 then
        match rest with
        | PList (_ :: _ :: _) :: _ => true
        | _ => false
        end
      else true
  | _ => true
  end.

(** The readings of a payload, in the order of its entries. *)
Definition port_readings (items : list pyval) : list (pyval * bool) :=
  flat_map (fun item =>
              match entry_reading item with
              | Some r => [r]
              | None => []
              end) items.

(** Lines 170-188 on each reading in turn. *)
Definition handle_readings (threshold : Z) (readings : list (pyval * bool))
  : M unit :=
  for_each (fun r => handle_reading threshold (fst r) (snd r)) readings.

(** The float 5.5, that is [6192449487634432 * 2^-50]. *)
Definition float_5_5 : spec_float := S754_finite false 6192449487634432 (-50).

(** The forces shown by [live.update], one for each reading decoded. *)
Definition displayed (evs : list event) : list pyval :=
  flat_map (fun e => match e with Display f => [f] | Click => [] end) evs.

(** The number of calls of [pyautogui.click()]. *)
Definition clicks (evs : list event) : nat :=
  length (filter (fun e => match e with Click => true | Display _ => false end) evs).

(** The force can be shown: line 171 does not raise. *)
Definition displayable (force_value : pyval) : bool :=
  match format_2f force_value with
  | Ok _ => true
  | Raise _ => false
  end.

(** The events of one reading whose step of the click logic is [step]. *)
Definition reading_events (reading : pyval * bool) (step : bool * bool)
  : list event :=
  Display (fst reading) :: if snd step then [Click] else [].

(** The state after the steps [steps] of [detect] from [pressed]. *)
Definition final_pressed (steps : list (bool * bool)) (pressed : bool) : bool :=
  fold_left (fun _ step => fst step) steps pressed.

(** ** The configuration file *)

Local Open Scope N_scope.

Definition hexdigit (d : N) : N := if d <? 10 then 48 + d else 87 + d.

(** ['\\u{0:04x}'.format(n)] for [n < 0x10000]. *)
Definition escape_u (n : N) : str :=
  [BACKSLASH; 117; hexdigit (n / 4096); hexdigit ((n / 256) mod 16);
   hexdigit ((n / 16) mod 16); hexdigit (n mod 16)].

(** The replacement of one character in [encode_basestring_ascii]. *)
Definition escape_char (c : N) : str :=
  if c =? QUOTE then [BACKSLASH; QUOTE]
  else if c =? BACKSLASH then [BACKSLASH; BACKSLASH]
  else if c =? 10 then [BACKSLASH; 110]
  else if c =? 13 then [BACKSLASH; 114]
  else if c =? 9 then [BACKSLASH; 116]
  else if c =? 12 then [BACKSLASH; 102]
  else if c =? 8 then [BACKSLASH; 98]
  else if (32 <=? c) && (c <=? 126) then [c]
  else if c <? 0x10000 then escape_u c
  else
    let v := c - 0x10000 in
    escape_u (N.lor 0xD800 (N.land (N.shiftr v 10) 0x3FF))
    ++ escape_u (N.lor 0xDC00 (N.land v 0x3FF)).

(** [encode_basestring_ascii(s)], the JSON text of a string with
    [ensure_ascii], the default of [json.dump]. *)
Definition encode_basestring_ascii (s : str) : str :=
  QUOTE :: flat_map escape_char s ++ [QUOTE].

Fixpoint uint_digits (u : uint) : str :=
  match u with
  | Nil => []
  | D0 u' => 48 :: uint_digits u'
  | D1 u' => 49 :: uint_digits u'
  | D2 u' => 50 :: uint_digits u'
  | D3 u' => 51 :: uint_digits u'
  | D4 u' => 52 :: uint_digits u'
  | D5 u' => 53 :: uint_digits u'
  | D6 u' => 54 :: uint_digits u'
  | D7 u' => 55 :: uint_digits u'
  | D8 u' => 56 :: uint_digits u'
  | D9 u' => 57 :: uint_digits u'
  end.

(** [int.__repr__], the JSON text of an int. *)
Definition encode_int (z : Z) : str :=
  match Z.to_int z with
  | Pos u => uint_digits u
  | Neg u => 45 :: uint_digits u
  end.

Local Open Scope Z_scope.

(** The file [CONFIG_FILE] as the program sees it: its text, or [None]
    when it does not exist. *)
Definition config_file : Type := option str.

(** [load_config()]. *)
Definition load_config (file : config_file) : result pyval :=
  match file with
  | Some text => json_loads text
  | None => Ok (PDict [])
  end.

Definition newline_indent : str := 10%N :: str_of_string "    ".

(** [json.dump(config, f, indent=4)] for the [config] of save_config,
    a [dict] of a [str] and an [int]. *)
Definition dump_config (serial_number : str) (threshold : Z) : str :=
  (str_of_string "{" ++ newline_indent
   ++ encode_basestring_ascii (str_of_string "serial_number") ++ str_of_string ": "
   ++ encode_basestring_ascii serial_number
   ++ str_of_string "," ++ newline_indent
   ++ encode_basestring_ascii (str_of_string "trigger_threshold") ++ str_of_string ": "
   ++ encode_int threshold
   ++ [10%N] ++ str_of_string "}")%list.

(** [save_config(serial_number, threshold)]: the file after the call. *)
Definition save_config (serial_number : str) (threshold : Z)
           (file : config_file) : config_file :=
  Some (dump_config serial_number threshold).

(** *** [json.dump] of any value: [float.__repr__] *)

(** [json] writes a finite float with [float.__repr__]: the shortest
    decimal digits that read back as the same float, the nearest such
    when there are several, found by generating the digits of the
    float one by one until what is written lies between the midpoints
    to its two neighbours.  Seventeen digits always do for a binary64,
    and the estimate of the position of the decimal point is at most
    three below it, so the fuel of [generate] and [find_k] is never
    used up. *)

(** The state of the digit generation for a float [v] and the
    midpoints [low < v < high] to its neighbours: [r / s] is what is
    left of [v], [mp / s] is [high - v] and [mm / s] is [v - low], all
    scaled by the power of ten of the digits generated so far. *)
Record scaled : Type := {
  sc_r : Z; sc_s : Z; sc_mp : Z; sc_mm : Z
}.

(** The binary64 [m * 2 ^ e], with [m] brought to 53 bits where the
    exponent allows it. *)
Definition normalize (m e : Z) : Z * Z :=
  let shift := Z.max 0 (Z.min (52 - Z.log2 m) (e + 1074)) in
  (m * 2 ^ shift, e - shift).

(** [v] and its midpoints as fractions over one denominator.  The
    lower neighbour is half as far when [m] is a power of two. *)
Definition start (m e : Z) : scaled :=
  let near := (m =? 2 ^ 52) && (-1074 <? e) in
  if 0 <=? e then
    if near then
      {| sc_r := m * 2 ^ e * 4; sc_s := 4; sc_mp := 2 * 2 ^ e; sc_mm := 2 ^ e |}
    else
      {| sc_r := m * 2 ^ e * 2; sc_s := 2; sc_mp := 2 ^ e; sc_mm := 2 ^ e |}
  else
    if near then
      {| sc_r := m * 4; sc_s := 2 ^ (- e) * 4; sc_mp := 2; sc_mm := 1 |}
    else
      {| sc_r := m * 2; sc_s := 2 ^ (- e) * 2; sc_mp := 1; sc_mm := 1 |}.

(** The state scaled by [10 ^ (- k)]. *)
Definition scale (k : Z) (x : scaled) : scaled :=
  if 0 <=? k then
    {| sc_r := sc_r x; sc_s := sc_s x * 10 ^ k;
       sc_mp := sc_mp x; sc_mm := sc_mm x |}
  else
    {| sc_r := sc_r x * 10 ^ (- k); sc_s := sc_s x;
       sc_mp := sc_mp x * 10 ^ (- k); sc_mm := sc_mm x * 10 ^ (- k) |}.

(** [high] reaches [10 ^ k].  A midpoint reads back as [v] when [m] is
    even, as the text is rounded to nearest, ties to even. *)
Definition too_low (even : bool) (x : scaled) : bool :=
  if even then sc_s x <=? sc_r x + sc_mp x else sc_s x <? sc_r x + sc_mp x.

(** The position of the decimal point: the least [k] from [k0] on
    with [high] below [10 ^ k]. *)
Fixpoint find_k (fuel : nat) (even : bool) (x : scaled) (k : Z) : Z :=
  match fuel with
  | O => k
  | S fuel =>
      if too_low even (scale k x) then find_k fuel even x (k + 1) else k
  end.

(** The digits, as a number [acc] of [n] digits: a digit is the last
    one as soon as what is generated lies between [low] and [high]. *)
Fixpoint generate (fuel : nat) (even : bool) (x : scaled) (acc : Z) (n : Z)
  : Z * Z :=
  match fuel with
  | O => (acc, n)
  | S fuel =>
      let d := (sc_r x * 10) / sc_s x in
      let r := (sc_r x * 10) mod sc_s x in
      let mp := sc_mp x * 10 in
      let mm := sc_mm x * 10 in
      let tc1 := if even then r <=? mm else r <? mm in
      let tc2 := if even then sc_s x <=? r + mp else sc_s x <? r + mp in
      match tc1, tc2 with
      | false, false =>
          generate fuel even
                   {| sc_r := r; sc_s := sc_s x; sc_mp := mp; sc_mm := mm |}
                   (acc * 10 + d) (n + 1)
      | true, false => (acc * 10 + d, n + 1)
      | false, true => (acc * 10 + d + 1, n + 1)
      | true, true =>
          match 2 * r ?= sc_s x with
          | Lt => (acc * 10 + d, n + 1)
          | Gt => (acc * 10 + d + 1, n + 1)
          | Eq => (acc * 10 + d + (if Z.even d then 0 else 1), n + 1)
          end
      end
  end.

Fixpoint strip_zeros (fuel : nat) (acc : Z) : Z :=
  match fuel with
  | O => acc
  | S fuel => if acc mod 10 =? 0 then strip_zeros fuel (acc / 10) else acc
  end.

(** The shortest digits that read back as [m * 2 ^ e], and the
    position [decpt] of the decimal point before them:
    [0.d1 d2 ... * 10 ^ decpt]. *)
Definition shortest_digits (m e : Z) : str * Z :=
  let '(m, e) := normalize m e in
  let even := Z.even m in
  let x := start m e in
  let k0 := ((Z.log2 m + e) * 30103) / 100000 - 1 in
  let k := find_k 6 even x k0 in
  let '(acc, n) := generate 20 even (scale k x) 0 0 in
  let decpt := if 10 ^ n <=? acc then k + 1 else k in
  (encode_int (strip_zeros 20 acc), decpt).

Definition zeros (n : Z) : str := repeat 48%N (Z.to_nat n).

(** [repr] of a finite float that is not zero, from its digits: plain
    for [-4 < decpt <= 16], else with an exponent of two digits at
    least. *)
Definition format_repr (digits : str) (decpt : Z) : str :=
  let n := Z.of_nat (length digits) in
  if (-4 <? decpt) && (decpt <=? 16) then
    if decpt <=? 0 then
      (str_of_string "0." ++ zeros (- decpt) ++ digits)%list
    else if n <=? decpt then
      (digits ++ zeros (decpt - n) ++ str_of_string ".0")%list
    else
      (firstn (Z.to_nat decpt) digits ++ str_of_string "."
       ++ skipn (Z.to_nat decpt) digits)%list
  else
    let x := decpt - 1 in
    (firstn 1 digits
     ++ (if 1 <? n then str_of_string "." ++ skipn 1 digits else [])
     ++ str_of_string "e" ++ (if x <? 0 then [45%N] else [43%N])
     ++ (if Z.abs x <? 10 then [48%N] else [])
     ++ encode_int (Z.abs x))%list.

(** [float.__repr__], and for what is not finite the names that
    [json] writes. *)
Definition encode_float (f : spec_float) : str :=
  match f with
  | S754_nan => str_of_string "NaN"
  | S754_infinity false => str_of_string "Infinity"
  | S754_infinity true => str_of_string "-Infinity"
  | S754_zero false => str_of_string "0.0"
  | S754_zero true => str_of_string "-0.0"
  | S754_finite s m e =>
      let '(digits, decpt) := shortest_digits (Zpos m) e in
      ((if s then [45%N] else []) ++ format_repr digits decpt)%list
  end.

(** *** [json.dump] of any value: the encoder with [indent=4] *)

(** A line feed and the indentation of the nesting [level]. *)
Definition newline_indent_at (level : nat) : str :=
  10%N :: repeat 32%N (4 * level).

(** [_iterencode(o, level)] for the values that [json.load] builds:
    the items of a list and of a dict on lines of their own, one level
    deeper, separated by [,]; a key and its value by [: ]. *)
Fixpoint encode_value (level : nat) (v : pyval) : str :=
  match v with
  | PNone => str_of_string "null"
  | PBool true => str_of_string "true"
  | PBool false => str_of_string "false"
  | PInt z => encode_int z
  | PFloat f => encode_float f
  | PStr s => encode_basestring_ascii s
  | PList [] => str_of_string "[]"
  | PList (x :: xs) =>
      (str_of_string "[" ++ newline_indent_at (S level)
       ++ encode_value (S level) x
       ++ (fix items (l : list pyval) : str :=
             match l with
             | [] => []
             | y :: l' =>
                 str_of_string "," ++ newline_indent_at (S level)
                 ++ encode_value (S level) y ++ items l'
             end) xs
       ++ newline_indent_at level ++ str_of_string "]")%list
  | PDict [] => str_of_string "{}"
  | PDict ((k, x) :: kvs) =>
      (str_of_string "{" ++ newline_indent_at (S level)
       ++ encode_basestring_ascii k ++ str_of_string ": "
       ++ encode_value (S level) x
       ++ (fix items (l : list (str * pyval)) : str :=
             match l with
             | [] => []
             | (k', y) :: l' =>
                 str_of_string "," ++ newline_indent_at (S level)
                 ++ encode_basestring_ascii k' ++ str_of_string ": "
                 ++ encode_value (S level) y ++ items l'
             end) kvs
       ++ newline_indent_at level ++ str_of_string "}")%list
  end.

(** [json.dump(config, f, indent=4)] for the [config] of save_config
    with any threshold. *)
Definition dump_record (serial_number : str) (threshold : pyval) : str :=
  encode_value 0 (PDict [(str_of_string "serial_number", PStr serial_number);
                         (str_of_string "trigger_threshold", threshold)]).

(** [save_config(serial_number, threshold)] with any threshold: the
    file after the call.  For an int it is [save_config] above. *)
Definition save_config_value (serial_number : str) (threshold : pyval)
           (file : config_file) : config_file :=
  Some (dump_record serial_number threshold).

(** *** Strings that survive the file *)

(** The code points of a [str] go up to U+10FFFF. *)
Definition is_str (s : str) : bool := forallb (fun c => (c <=? 0x10FFFF)%N) s.

(** No high surrogate is directly followed by a low surrogate. *)
Fixpoint surrogate_pair_free (s : str) : bool :=
  match s with
  | c :: s' =>
      match s' with
      | c' :: _ => negb (is_high_surrogate c && is_low_surrogate c')
      | [] => true
      end && surrogate_pair_free s'
  | [] => true
  end.

(** The text [t] does not start with the escape of a low surrogate. *)
Definition no_low_escape (t : str) : bool :=
  match t with
  | b :: u :: t' =>
      if ((b =? BACKSLASH) && (u =? 117))%N then
        match t' with
        | k1 :: k2 :: k3 :: k4 :: _ =>
            match hex4 k1 k2 k3 k4 with
            | Some uni2 => negb (is_low_surrogate uni2)
            | None => false
            end
        | _ => false
        end
      else true
  | _ => true
  end.

(** The text after a number does not go on with a digit, a dot or an
    exponent. *)
Definition ends_number (rest : str) : bool :=
  match rest with
  | c :: _ =>
      match digit_of c with
      | Some _ => false
      | None => negb ((c =? 46) || (c =? 101) || (c =? 69))%N
      end
  | [] => true
  end.

(** The digits are not empty and do not start with a zero. *)
Definition head_nonzero (u : uint) : bool :=
  match u with
  | Nil | D0 _ => false
  | _ => true
  end.

(** *** Bookkeeping of the scanner and of exceptions *)

(** A scanner result on the text [s]: the text left is shorter, and
    the only exception is [JSONDecodeError]. *)
Definition consumes {A} (r : result (A * str)) (s : str) : Prop :=
  match r with
  | Ok (_, rest) => (length rest < length s)%nat
  | Raise e => e = JSONDecodeError
  end.

(** The exceptions of the decoding code that the [except] clause of
    line 189 does not name. *)
Definition escapes (e : exn) : bool :=
  match e with
  | UnicodeDecodeError | TypeError | ValueError | OverflowError => true
  | _ => false
  end.

(** What the handling of a parsed message can raise. *)
Definition shape_error (e : exn) : bool :=
  match e with
  | KeyError | IndexError | TypeError | ValueError | OverflowError => true
  | _ => false
  end.

(** ** Threshold configuration (main, lines 114-121) *)

(** [config.get(key, default)]. *)
Definition config_get (config : list (str * pyval)) (key : str)
           (default : pyval) : pyval :=
  match dict_get config key with
  | Some v => v
  | None => default
  end.

(** [config.get(key, default)] on what [json.load] returned: only a
    [dict] has the method. *)
Definition py_get (config : pyval) (key : str) (default : pyval)
  : result pyval :=
  match config with
  | PDict d => Ok (config_get d key default)
  | _ => Raise AttributeError
  end.

(** [IntPrompt.ask(..., default=default)]: the int the user entered,
    or on an empty answer the default as it is, whatever its type.
    The prompt accepts every int. *)
Definition IntPrompt_ask (default : pyval) (answer : option Z) : pyval :=
  match answer with
  | Some z => PInt z
  | None => default
  end.

(** Lines 114-121 of main for the device [serial_number]: the
    threshold handed to monitor_device and the file after
    save_config. *)
Definition configure_threshold (config : pyval)
           (serial_number : str) (answer : option Z) (file : config_file)
  : result (pyval * config_file) :=
  (default_threshold <-
     py_get config (str_of_string "trigger_threshold") (PInt 1) ;;
   let trigger_threshold := IntPrompt_ask default_threshold answer in
   Ok (trigger_threshold,
       save_config_value serial_number trigger_threshold file))%result.

(** ** Device selection (select_device) *)

(** A port as [serial.tools.list_ports.comports()] lists it. *)
Record port_info : Type := {
  device : str;
  serial_number : option str;
  description : str
}.

(** What a function that prompts comes to: it returns, an exception
    leaves it, or it goes on asking because the answers given ran
    out. *)
Inductive ending (A : Type) : Type :=
| Returns (a : A)
| Raises (e : exn)
| Blocks.
Arguments Returns {A} a.
Arguments Raises {A} e.
Arguments Blocks {A}.

(** What [console.print] and [console.rule] show during the setup. *)
Inductive message : Type :=
| ScanningMsg
| NoDevicesMsg
| DeviceTable (rows : list (str * str * str * str))
| SelectedMsg (port : str) (serial : option str)
| InvalidIndexMsg
| TitleRule
| FoundSavedMsg (port : str)
| SavedNotFoundMsg
| ThresholdHelp
| ConfigSavedMsg.

(** [port.serial_number or "N/A"]. *)
Definition serial_or_na (serial : option str) : str :=
  match serial with
  | Some (c :: s) => c :: s
  | Some [] | None => str_of_string "N/A"
  end.

(** The rows of lines 55-56, for the ports from index [i] on. *)
Fixpoint table_rows (i : nat) (comports : list port_info)
  : list (str * str * str * str) :=
  match comports with
  | [] => []
  | port :: rest =>
      (encode_int (Z.of_nat (i + 1)), device port,
       serial_or_na (serial_number port), description port)
      :: table_rows (S i) rest
  end.

(** The loop of lines 60-73 on the ints that [IntPrompt.ask] returns
    one after the other.  [comports[choice - 1]] raises [IndexError]
    out of range.  [IntPrompt.ask] asks again by itself for an answer
    that is no int, so the handler of line 72 has nothing to catch. *)
Fixpoint ask_index (comports : list port_info) (choices : list Z)
  : ending (option str * option str) * list message :=
  match choices with
  | [] => (Blocks, [])
  | choice :: rest =>
      if (1 <=? choice) && (choice <=? Z.of_nat (length comports)) then
        match nth_error comports (Z.to_nat (choice - 1)) with
        | Some selected_port =>
            (Returns (Some (device selected_port),
                      serial_number selected_port),
             [SelectedMsg (device selected_port)
                          (serial_number selected_port)])
        | None => (Raises IndexError, [])
        end
      else
        let '(r, out) := ask_index comports rest in
        (r, InvalidIndexMsg :: out)
  end.

(** select_device() when its scan of line 43 finds [comports]: the
    pair it returns and what it prints. *)
Definition select_device (comports : list port_info) (choices : list Z)
  : ending (option str * option str) * list message :=
  if is_empty comports then
    (Returns (None, None), [ScanningMsg; NoDevicesMsg])
  else
    let '(r, out) := ask_index comports choices in
    (r, ScanningMsg :: DeviceTable (table_rows 0 comports) :: out).

(** ** The session setup (main) *)

(** The truth value of a parsed JSON value. *)
Definition py_truthy (v : pyval) : bool :=
  match v with
  | PNone => false
  | PBool b => b
  | PInt z => negb (z =? 0)
  | PFloat (S754_zero _) => false
  | PFloat _ => true
  | PStr s => negb (is_empty s)
  | PList l => negb (is_empty l)
  | PDict d => negb (is_empty d)
  end.


(** [port.serial_number == saved] for the saved value of the
    configuration. *)
Definition serial_matches (saved : pyval) (port : port_info) : bool :=
  match serial_number port, saved with
  | Some s, PStr s' => str_eqb s s'
  | None, PNone => true
  | _, _ => false
  end.

(** [s in t] for two strings. *)
Fixpoint is_substring (s t : str) : bool :=
  match strip_prefix s t with
  | Some _ => true
  | None =>
      match t with
      | [] => false
      | _ :: t' => is_substring s t'
      end
  end.

(** [key in config] for a string [key]: a key of a dict, an item of a
    list, a part of a string. *)
Definition py_in (key : str) (config : pyval) : result bool :=
  match config with
  | PDict d =>
      Ok match dict_get d key with Some _ => true | None => false end
  | PList l =>
      Ok (existsb (fun v => match v with
                            | PStr s => str_eqb s key
                            | _ => false
                            end) l)
  | PStr s => Ok (is_substring key s)
  | PNone | PBool _ | PInt _ | PFloat _ => Raise TypeError
  end.

(** Lines 86-104: the device and serial number chosen and what is
    printed.  [config] is what load_config returned, [scan k] what
    the call number [k] of [comports()] returns, [confirm] the answer
    to [Confirm.ask], [choices] the answers to the index prompt. *)
Definition choose_device (config : pyval)
           (scan : nat -> list port_info) (confirm : bool)
           (choices : list Z)
  : ending (option str * option str) * list message :=
  match py_in (str_of_string "serial_number") config with
  | Raise e => (Raises e, [])
  | Ok false => select_device (scan 0%nat) choices
  | Ok true =>
      match getitem_str config (str_of_string "serial_number") with
      | Raise e => (Raises e, [])
      | Ok saved =>
          if py_truthy saved then
            if confirm then
              match find (serial_matches saved) (scan 0%nat) with
              | Some port =>
                  (Returns (Some (device port), serial_number port),
                   [FoundSavedMsg (device port)])
              | None =>
                  let '(r, out) := select_device (scan 1%nat) choices in
                  (r, SavedNotFoundMsg :: out)
              end
            else select_device (scan 0%nat) choices
          else select_device (scan 0%nat) choices
      end
  end.

(** What a run of main leaves behind: what it printed, the
    configuration file, and the arguments of its call of
    monitor_device, if it came to it. *)
Record main_run : Type := {
  run_console : list message;
  run_file : config_file;
  run_monitor : option (str * pyval)
}.

(** main().  [answer] is the answer to the threshold prompt. *)
Definition main (file : config_file) (scan : nat -> list port_info)
           (confirm : bool) (choices : list Z) (answer : option Z)
  : ending unit * main_run :=
  match load_config file with
  | Raise e =>
      (Raises e,
       {| run_console := [TitleRule]; run_file := file;
          run_monitor := None |})
  | Ok config =>
      let '(r, out) := choose_device config scan confirm choices in
      match r with
      | Blocks =>
          (Blocks,
           {| run_console := TitleRule :: out; run_file := file;
              run_monitor := None |})
      | Raises e =>
          (Raises e,
           {| run_console := TitleRule :: out; run_file := file;
              run_monitor := None |})
      | Returns (spike_port, chosen_serial) =>
          match spike_port, chosen_serial with
          | Some (p :: port), Some (c :: serial) =>
              match configure_threshold config (c :: serial) answer file with
              | Ok (trigger_threshold, file') =>
                  (Returns tt,
                   {| run_console :=
                        TitleRule :: out ++ [ThresholdHelp; ConfigSavedMsg];
                      run_file := file';
                      run_monitor := Some (p :: port, trigger_threshold) |})
              | Raise e =>
                  (Raises e,
                   {| run_console := TitleRule :: out ++ [ThresholdHelp];
                      run_file := file; run_monitor := None |})
              end
          | _, _ =>
              (Returns tt,
               {| run_console := TitleRule :: out; run_file := file;
                  run_monitor := None |})
          end
      end
  end.

(** ** Vocabulary of the further properties *)

(** The state [st] with the receive buffer [buf]. *)
Definition with_buf (buf : list byte) (st : loop_state) : loop_state :=
  {| recv_buf := buf; is_pressed := is_pressed st; events := events st |}.

(** Twice the clicks are at most the readings shown, plus one while
    the detector is pressed. *)
Definition click_bound (st : loop_state) : Prop :=
  (2 * clicks (events st)
   <= length (displayed (events st)) + (if is_pressed st then 1 else 0))%nat.

(** A line feed or a printable ASCII character. *)
Definition is_plain_ascii (c : N) : bool :=
  ((c =? 10) || (32 <=? c) && (c <=? 126))%N.

(** A choice outside [1 .. n]. *)
Definition out_of_range (n : nat) (choice : Z) : bool :=
  negb ((1 <=? choice) && (choice <=? Z.of_nat n)).

(** Code that neither reads nor writes the receive buffer runs the
    same with any buffer. *)
Definition buf_free {A} (m : M A) : Prop :=
  forall st b, m (with_buf b st) = (fst (m st), with_buf b (snd (m st))).

(** Code that keeps the property [P] of the loop's variables, however
    it ends. *)
Definition keeps {A} (P : loop_state -> Prop) (m : M A) : Prop :=
  forall st r st', m st = (r, st') -> P st -> P st'.

(** The exception of lines 166-168 on a payload entry on which they
    raise one that line 189 names: [IndexError] for an empty list and
    for a list on port 63 with no second element or with a list or a
    string of fewer than two items there, [KeyError] for an object
    there. *)
Definition entry_caught (item : pyval) : option exn :=
  match item with
  | PList [] => Some IndexError
  | PList (port :: rest) =>
      if py_eq_int port 63 then
        match rest with
        | [] | PList [] :: _ | PList [_] :: _
        | PStr [] :: _ | PStr [_] :: _ => Some IndexError
        | PDict _ :: _ => Some KeyError
        | _ => None
        end
      else None
  | _ => None
  end.

(** The readings that a line carries: those of its port 63 entries
    for a message of kind 0 whose payload is a list of well-formed
    entries, none for a line that the decoder drops (text that is not
    JSON, an object without [m], of another kind, or without [p]).
    [None] for every other line. *)
Definition line_readings (line : list byte) : option (list (pyval * bool)) :=
  match utf8_decode line with
  | Ok text =>
      match json_loads text with
      | Ok (PDict d) =>
          match dict_get d (str_of_string "m") with
          | Some m =>
              if py_eq_int m 0 then
                match dict_get d (str_of_string "p") with
                | Some (PList items) =>
                    if forallb entry_ok items then Some (port_readings items)
                    else None
                | Some _ => None
                | None => Some []
                end
              else Some []
          | None => Some []
          end
      | Ok _ => None
      | Raise _ => Some []
      end
  | Raise _ => None
  end.

(** The readings of a sequence of lines, in order. *)
Fixpoint lines_readings (lines : list (list byte))
  : option (list (pyval * bool)) :=
  match lines with
  | [] => Some []
  | line :: rest =>
      match line_readings line, lines_readings rest with
      | Some rs, Some rs' => Some (rs ++ rs')
      | _, _ => None
      end
  end.

(** What [json.load] makes of a string that [json.dump] wrote: a high
    surrogate directly followed by a low one comes back as the one
    code point they encode. *)
Fixpoint join_pairs (s : str) : str :=
  match s with
  | c :: s' =>
      match s' with
      | c' :: s'' =>
          if is_high_surrogate c && is_low_surrogate c' then
            join_surrogates c c' :: join_pairs s''
          else c :: join_pairs s'
      | [] => [c]
      end
  | [] => []
  end.

(** A text that no JSON value starts: empty or white space only, or
    with a first character that is none of the quote, a bracket, a
    brace, a minus sign, a digit and the first letters of [null],
    [true], [false], [NaN] and [Infinity]. *)
Definition no_json_start (text : str) : bool :=
  match skip_ws text with
  | [] => true
  | c :: _ =>
      negb (existsb (N.eqb c)
              [34; 123; 91; 45; 48; 49; 50; 51; 52; 53; 54; 55; 56; 57;
               110; 116; 102; 78; 73]%N)
  end.

(** ** Literals for examples *)

(** The bytes of an ASCII text in which ['] stands for the double
    quote of JSON. *)
Definition json_bytes (s : string) : list byte :=
  map (fun b => if Byte.eqb b x27 then x22 else b) (list_byte_of_string s).

(** The text of a file, written with ['] for the double quote of
    JSON. *)
Definition json_text (s : string) : str :=
  map (fun c => if (c =? 39)%N then 34%N else c) (str_of_string s).

(** The float 2.5, that is [5629499534213120 * 2^-51]. *)
Definition float_2_5 : spec_float := S754_finite false 5629499534213120 (-51).

(** * Properties *)

(** ** Line framing *)

Section Framing.

Lemma last_app_nonnil {A} (l l' : list A) d :
  l' <> [] -> last (l ++ l') d = last l' d.
Proof.
  intros Hl'. induction l as [|a l IH]; [reflexivity|].
  simpl app. simpl last. rewrite IH.
  destruct (l ++ l') eqn:E; [|reflexivity].
  apply app_eq_nil in E. tauto.
Qed.

Lemma byte_eqb_sym a b : Byte.eqb a b = Byte.eqb b a.
Proof.
  destruct (Byte.eqb a b) eqn:E.
  - apply Byte.byte_dec_bl in E. subst. symmetry.
    apply Byte.byte_dec_lb. reflexivity.
  - destruct (Byte.eqb b a) eqn:E'; [|reflexivity].
    apply Byte.byte_dec_bl in E'. subst.
    rewrite (Byte.byte_dec_lb eq_refl) in E. discriminate.
Qed.

Lemma contains_app sep s t :
  contains sep (s ++ t) = contains sep s || contains sep t.
Proof. apply existsb_app. Qed.

Lemma contains_cons sep b s :
  contains sep (b :: s) = Byte.eqb sep b || contains sep s.
Proof. reflexivity. Qed.

Lemma split_nonnil sep s : split sep s <> [].
Proof.
  destruct s as [|b s]; simpl; [discriminate|].
  destruct (Byte.eqb b sep); [discriminate|].
  destruct (split sep s); discriminate.
Qed.

(** Splitting a concatenation: the complete segments of the first
    part, then the split of its last segment followed by the second
    part. *)
Lemma split_app sep s t :
  split sep (s ++ t) =
  removelast (split sep s) ++ split sep (last (split sep s) [] ++ t).
Proof.
  induction s as [|b s IH]; [reflexivity|].
  simpl app at 1. simpl split.
  pose proof (split_nonnil sep s) as Hn.
  destruct (Byte.eqb b sep) eqn:Eb.
  - destruct (split sep s) as [|seg segs] eqn:E; [congruence|].
    rewrite IH. reflexivity.
  - rewrite IH.
    destruct (split sep s) as [|seg segs] eqn:E; [congruence|].
    destruct segs as [|seg' segs].
    + simpl. rewrite Eb. reflexivity.
    + reflexivity.
Qed.

Lemma split_no_sep sep s : contains sep s = false -> split sep s = [s].
Proof.
  induction s as [|b s IH]; [reflexivity|].
  rewrite contains_cons. intros H. apply orb_false_iff in H as [Hb Hs].
  simpl. rewrite byte_eqb_sym, Hb, (IH Hs). reflexivity.
Qed.

Lemma split_segments_no_sep sep s :
  Forall (fun seg => contains sep seg = false) (split sep s).
Proof.
  induction s as [|b s IH]; simpl.
  - constructor; [reflexivity|constructor].
  - destruct (Byte.eqb b sep) eqn:Eb.
    + constructor; [reflexivity|exact IH].
    + destruct (split sep s) as [|seg segs]; inversion IH; subst.
      * constructor; [|constructor]. simpl.
        rewrite byte_eqb_sym, Eb. reflexivity.
      * constructor; [|assumption].
        rewrite contains_cons, byte_eqb_sym, Eb. assumption.
Qed.

(** Joining the segments with the separator gives the bytes back. *)
Lemma join_split sep s : join sep (split sep s) = s.
Proof.
  induction s as [|b s IH]; [reflexivity|].
  pose proof (split_nonnil sep s) as Hn.
  simpl split. destruct (Byte.eqb b sep) eqn:Eb.
  - apply Byte.byte_dec_bl in Eb. subst b.
    destruct (split sep s) as [|seg segs] eqn:E; [congruence|].
    simpl join in *. rewrite IH. reflexivity.
  - destruct (split sep s) as [|seg segs] eqn:E; [congruence|].
    destruct segs as [|seg' segs]; simpl join in *; rewrite <- IH; reflexivity.
Qed.

Lemma split_singleton sep s seg :
  split sep s = [seg] -> contains sep s = false.
Proof.
  revert seg. induction s as [|b s IH]; intros seg; [reflexivity|].
  pose proof (split_nonnil sep s) as Hn.
  simpl split. rewrite contains_cons, (byte_eqb_sym sep b).
  destruct (Byte.eqb b sep).
  - intros H. inversion H. congruence.
  - destruct (split sep s) as [|seg' segs] eqn:E; [congruence|].
    intros H. inversion H; subst. apply (IH seg'). reflexivity.
Qed.

Lemma rfind_found sep s : (0 <=? rfind sep s) = contains sep s.
Proof.
  induction s as [|b s IH]; [reflexivity|].
  simpl rfind. rewrite contains_cons, (byte_eqb_sym sep b), <- IH.
  destruct (0 <=? rfind sep s) eqn:E.
  - apply Z.leb_le in E. rewrite orb_true_r. apply Z.leb_le. lia.
  - rewrite orb_false_r. destruct (Byte.eqb b sep); reflexivity.
Qed.

(** The slice after the last delimiter is the last segment. *)
Lemma remainder_last s : remainder s = last (split CR s) [].
Proof.
  unfold remainder, slice_from.
  induction s as [|b s IH]; [reflexivity|].
  pose proof (split_nonnil CR s) as Hn.
  pose proof (rfind_found CR s) as Hf.
  simpl rfind. simpl split.
  destruct (0 <=? rfind CR s) eqn:E.
  - apply Z.leb_le in E.
    replace (Z.to_nat (rfind CR s + 1 + 1))
      with (S (Z.to_nat (rfind CR s + 1))) by lia.
    simpl skipn. rewrite IH.
    destruct (Byte.eqb b CR);
      destruct (split CR s) as [|seg segs] eqn:Es; try congruence.
    + reflexivity.
    + destruct segs; [|reflexivity].
      apply split_singleton in Es. congruence.
  - rewrite (split_no_sep CR s) by congruence.
    destruct (Byte.eqb b CR); reflexivity.
Qed.

Lemma complete_lines_no_cr s :
  contains CR s = false -> complete_lines s = [].
Proof.
  intros H. unfold complete_lines. rewrite (split_no_sep CR s H). reflexivity.
Qed.

Lemma remainder_no_sep s : contains CR s = false -> remainder s = s.
Proof.
  intros H. rewrite remainder_last, (split_no_sep CR s H). reflexivity.
Qed.

Lemma complete_lines_app s t :
  complete_lines (s ++ t) =
  complete_lines s ++ complete_lines (remainder s ++ t).
Proof.
  unfold complete_lines. rewrite remainder_last, split_app.
  rewrite removelast_app by apply split_nonnil.
  apply filter_app.
Qed.

Lemma remainder_app s t : remainder (s ++ t) = remainder (remainder s ++ t).
Proof.
  rewrite !remainder_last, split_app.
  apply last_app_nonnil. apply split_nonnil.
Qed.

Lemma remainder_no_cr s : contains CR (remainder s) = false.
Proof.
  rewrite remainder_last.
  pose proof (split_segments_no_sep CR s) as H.
  pose proof (split_nonnil CR s) as Hn.
  induction H as [|seg segs Hseg Hsegs IH]; [congruence|].
  destruct segs; [exact Hseg|]. apply IH. discriminate.
Qed.

(** One pass of the framer from a delimiter-free buffer. *)
Lemma frame_spec buf data :
  contains CR buf = false ->
  frame buf data = (complete_lines (buf ++ data), remainder (buf ++ data)).
Proof.
  intros Hb. unfold frame.
  destruct data as [|d data]; simpl is_empty.
  - rewrite app_nil_r, complete_lines_no_cr, remainder_no_sep by assumption.
    reflexivity.
  - destruct (contains CR (buf ++ d :: data)) eqn:E; [reflexivity|].
    rewrite complete_lines_no_cr, remainder_no_sep by assumption.
    reflexivity.
Qed.

Lemma frame_chunks_spec chunks : forall buf,
  contains CR buf = false ->
  frame_chunks buf chunks =
    (complete_lines (buf ++ concat chunks), remainder (buf ++ concat chunks)).
Proof.
  induction chunks as [|data rest IH]; intros buf Hb.
  - simpl. rewrite app_nil_r, complete_lines_no_cr, remainder_no_sep by assumption.
    reflexivity.
  - simpl frame_chunks. rewrite (frame_spec buf data Hb).
    rewrite (IH _ (remainder_no_cr _)).
    simpl concat. rewrite app_assoc.
    rewrite <- complete_lines_app, <- remainder_app. reflexivity.
Qed.

(** C2.  Fed chunk by chunk from the empty buffer, the framer emits
    the non-empty segments that [\r] delimits in the concatenation of
    the chunks, all but the last, and keeps the last one, the bytes
    after the last [\r], as its buffer; so the result is the one of
    feeding the whole input as a single chunk, whatever the chunk
    boundaries.  The segments are delimiter-free and give the input
    back when joined with [\r].  An empty chunk changes nothing.  The
    input
    [{"a":1}\r{"a":2}\r{"a"] in one chunk gives the two lines
    [{"a":1}] and [{"a":2}] and the buffer [{"a"]. *)
Theorem framing_independent_of_chunking :
  (forall chunks : list (list byte),
      let input := concat chunks in
      frame_chunks [] chunks =
        (filter (fun line => negb (is_empty line))
                (removelast (split CR input)),
         last (split CR input) [])
      /\ frame_chunks [] chunks = frame_chunks [] [input]
      /\ join CR (split CR input) = input
      /\ Forall (fun seg => contains CR seg = false) (split CR input))
  /\ (forall buf : list byte, frame buf [] = ([], buf))
  /\ frame_chunks []
       [json_bytes "{'a':1}" ++ [CR] ++ json_bytes "{'a':2}" ++ [CR]
        ++ json_bytes "{'a'"]
     = ([json_bytes "{'a':1}"; json_bytes "{'a':2}"], json_bytes "{'a'").
Proof.
  split; [|split; reflexivity].
  intros chunks input. subst input.
  pose proof (frame_chunks_spec chunks [] eq_refl) as H.
  pose proof (frame_chunks_spec [concat chunks] [] eq_refl) as H1.
  simpl app in H, H1. simpl concat in H1. rewrite app_nil_r in H1.
  split; [|split; [|split]].
  - rewrite H. unfold complete_lines. rewrite remainder_last. reflexivity.
  - rewrite H, H1. reflexivity.
  - apply join_split.
  - apply split_segments_no_sep.
Qed.

End Framing.

(** ** The receive buffer in the monitoring loop *)

Section Loop.

Create HintDb buf.

Lemma ret_buf {A} (a : A) st : recv_buf (snd (ret a st)) = recv_buf st.
Proof. reflexivity. Qed.

Lemma lift_buf {A} (r : result A) st : recv_buf (snd (lift r st)) = recv_buf st.
Proof. reflexivity. Qed.

Lemma emit_buf e st : recv_buf (snd (emit e st)) = recv_buf st.
Proof. reflexivity. Qed.

Lemma get_pressed_buf st : recv_buf (snd (get_pressed st)) = recv_buf st.
Proof. reflexivity. Qed.

Lemma set_pressed_buf b st : recv_buf (snd (set_pressed b st)) = recv_buf st.
Proof. reflexivity. Qed.

Lemma bind_buf {A B} (m : M A) (k : A -> M B) :
  (forall st, recv_buf (snd (m st)) = recv_buf st) ->
  (forall a st, recv_buf (snd (k a st)) = recv_buf st) ->
  forall st, recv_buf (snd (bind m k st)) = recv_buf st.
Proof.
  intros Hm Hk st. unfold bind. specialize (Hm st).
  destruct (m st) as [[a|e] st1]; simpl in *; [|assumption].
  rewrite Hk. assumption.
Qed.

Lemma try_pass_buf body handled :
  (forall st, recv_buf (snd (body st)) = recv_buf st) ->
  forall st, recv_buf (snd (try_pass body handled st)) = recv_buf st.
Proof.
  intros Hb st. unfold try_pass. specialize (Hb st).
  destruct (body st) as [[a|e] st1]; simpl in *; [assumption|].
  destruct (handled e); assumption.
Qed.

Lemma for_each_buf {A} (body : A -> M unit) xs :
  (forall x st, recv_buf (snd (body x st)) = recv_buf st) ->
  forall st, recv_buf (snd (for_each body xs st)) = recv_buf st.
Proof.
  intros Hb. induction xs as [|x xs IH]; intros st; [reflexivity|].
  simpl for_each. apply bind_buf; auto.
Qed.

#[local] Hint Resolve ret_buf lift_buf emit_buf get_pressed_buf set_pressed_buf : buf.
#[local] Hint Extern 2 (recv_buf (snd (bind _ _ _)) = _) =>
  apply bind_buf; intros : buf.
#[local] Hint Extern 2 (recv_buf (snd (for_each _ _ _)) = _) =>
  apply for_each_buf; intros : buf.
#[local] Hint Extern 2 (recv_buf (snd (try_pass _ _ _)) = _) =>
  apply try_pass_buf; intros : buf.
#[local] Hint Extern 3 (recv_buf (snd ((if ?c then _ else _) _)) = _) =>
  destruct c : buf.

Lemma handle_reading_buf threshold f t st :
  recv_buf (snd (handle_reading threshold f t st)) = recv_buf st.
Proof. unfold handle_reading. auto 10 with buf. Qed.

Lemma handle_item_buf threshold item st :
  recv_buf (snd (handle_item threshold item st)) = recv_buf st.
Proof.
  unfold handle_item. destruct item; auto 12 using handle_reading_buf with buf.
Qed.

Lemma handle_message_buf threshold message st :
  recv_buf (snd (handle_message threshold message st)) = recv_buf st.
Proof.
  unfold handle_message. auto 10 using handle_item_buf with buf.
Qed.

Lemma process_line_buf threshold line st :
  recv_buf (snd (process_line threshold line st)) = recv_buf st.
Proof.
  unfold process_line. auto 10 using handle_message_buf with buf.
Qed.

Lemma monitor_iteration_frame threshold data st st' :
  monitor_iteration threshold data st = (Ok tt, st') ->
  recv_buf st' = snd (frame (recv_buf st) data).
Proof.
  unfold monitor_iteration, frame.
  destruct (is_empty data).
  - intros H. inversion H. reflexivity.
  - unfold bind at 1 2 3. simpl.
    destruct (contains CR (recv_buf st ++ data)).
    + unfold bind at 1.
      pose proof (for_each_buf (process_line threshold)
                    (complete_lines (recv_buf st ++ data))
                    (process_line_buf threshold)
                    {| recv_buf := recv_buf st ++ data;
                       is_pressed := is_pressed st;
                       events := events st |}) as Hb.
      destruct (for_each _ _ _) as [[[]|e] st1]; simpl in *; [|discriminate].
      intros H. inversion H. simpl. rewrite Hb. reflexivity.
    + intros H. inversion H. reflexivity.
Qed.

Lemma monitor_loop_frame threshold chunks : forall st st',
  monitor_loop threshold chunks st = (Ok tt, st') ->
  recv_buf st' = snd (frame_chunks (recv_buf st) chunks).
Proof.
  induction chunks as [|data rest IH]; intros st st' H.
  - inversion H. reflexivity.
  - unfold monitor_loop in H. simpl for_each in H. unfold bind in H.
    destruct (monitor_iteration threshold data st) as [[[]|e] st1] eqn:E;
      [|discriminate].
    apply monitor_iteration_frame in E. apply IH in H.
    simpl frame_chunks. destruct (frame (recv_buf st) data) as [lines buf].
    simpl in E. rewrite <- E.
    destruct (frame_chunks (recv_buf st1) rest). exact H.
Qed.

Lemma for_each_app {A} (body : A -> M unit) xs ys st :
  for_each body (xs ++ ys) st =
  bind (for_each body xs) (fun _ => for_each body ys) st.
Proof.
  revert st. induction xs as [|x xs IH]; intros st; [reflexivity|].
  simpl app. simpl for_each. unfold bind.
  destruct (body x st) as [[[]|e] st1]; [|reflexivity].
  rewrite IH. reflexivity.
Qed.

Lemma monitor_loop_prefix threshold chunks k st st' :
  monitor_loop threshold chunks st = (Ok tt, st') ->
  exists stk, monitor_loop threshold (firstn k chunks) st = (Ok tt, stk).
Proof.
  unfold monitor_loop. rewrite <- (firstn_skipn k chunks) at 1.
  rewrite for_each_app. unfold bind.
  destruct (for_each (monitor_iteration threshold) (firstn k chunks) st)
    as [[[]|e] stk]; [|discriminate].
  intros _. exists stk. reflexivity.
Qed.

(** An iteration that ends keeps a delimiter-free buffer so. *)
Lemma monitor_iteration_no_cr threshold data st st' :
  contains CR (recv_buf st) = false ->
  monitor_iteration threshold data st = (Ok tt, st') ->
  contains CR (recv_buf st') = false.
Proof.
  intros Hb H. apply monitor_iteration_frame in H.
  rewrite (frame_spec _ _ Hb) in H. simpl in H. rewrite H.
  apply remainder_no_cr.
Qed.

(** C6.  In a run of the monitoring loop from the initial state, at
    the end of every iteration the receive buffer holds no [\r]: it
    is the part of the bytes read so far that follows the last [\r],
    whether the chunks read were empty, delimiter-free or not. *)
Theorem receive_buffer_invariant threshold chunks st' :
  monitor_loop threshold chunks initial_state = (Ok tt, st') ->
  forall k, exists stk,
    monitor_loop threshold (firstn k chunks) initial_state = (Ok tt, stk)
    /\ contains CR (recv_buf stk) = false
    /\ recv_buf stk = last (split CR (concat (firstn k chunks))) [].
Proof.
  intros H k.
  destruct (monitor_loop_prefix threshold chunks k _ _ H) as [stk Hk].
  exists stk. split; [exact Hk|].
  apply monitor_loop_frame in Hk. simpl recv_buf in Hk.
  rewrite (frame_chunks_spec _ [] eq_refl) in Hk. simpl in Hk.
  rewrite Hk. split; [apply remainder_no_cr|apply remainder_last].
Qed.

Lemma receive_buffer_invariant_witness :
  exists stk,
    monitor_loop 5
      (firstn 3 [json_bytes "{'m':0,'p':[[63,[5.5,1]]]}" ++ [CR];
                 [];
                 json_bytes "{'m':0,'p':[[63,[0,0]]]}" ++ [CR]
                 ++ json_bytes "{'m'"])
      initial_state = (Ok tt, stk)
    /\ contains CR (recv_buf stk) = false
    /\ recv_buf stk =
       last (split CR
               (concat
                  (firstn 3 [json_bytes "{'m':0,'p':[[63,[5.5,1]]]}" ++ [CR];
                             [];
                             json_bytes "{'m':0,'p':[[63,[0,0]]]}" ++ [CR]
                             ++ json_bytes "{'m'"]))) [].
Proof.
  eapply (receive_buffer_invariant 5).
  vm_compute. reflexivity.
Defined.

End Loop.

(** ** The click logic inside the loop *)

Section LoopDetector.

Lemma handle_reading_step threshold f t st pressed' click :
  displayable f = true ->
  click_logic threshold f t (is_pressed st) = Ok (pressed', click) ->
  handle_reading threshold f t st =
  (Ok tt, {| recv_buf := recv_buf st; is_pressed := pressed';
             events := events st ++ reading_events (f, t) (pressed', click) |}).
Proof.
  intros Hd Hc. unfold displayable in Hd.
  unfold handle_reading, bind, lift, emit, get_pressed, set_pressed, ret.
  destruct (format_2f f) as [[]|e]; [|discriminate].
  simpl. rewrite Hc. simpl. unfold reading_events. simpl.
  destruct click; simpl; [rewrite <- app_assoc|]; reflexivity.
Qed.

(** The loop code on a sequence of displayable readings does what
    [detect] says: it ends in the last state and has shown each force
    and clicked where [detect] clicks. *)
Lemma handle_readings_detect threshold readings : forall st steps,
  forallb (fun r => displayable (fst r)) readings = true ->
  detect threshold readings (is_pressed st) = Ok steps ->
  handle_readings threshold readings st =
  (Ok tt,
   {| recv_buf := recv_buf st;
      is_pressed := final_pressed steps (is_pressed st);
      events := events st
                ++ concat (map (fun rs => reading_events (fst rs) (snd rs))
                               (combine readings steps)) |}).
Proof.
  induction readings as [|[f t] rest IH]; intros st steps Hd Hs.
  - inversion Hs. simpl. rewrite app_nil_r. destruct st; reflexivity.
  - simpl in Hd. apply andb_true_iff in Hd as [Hf Hr].
    simpl detect in Hs.
    destruct (click_logic threshold f t (is_pressed st)) as [[p c]|e] eqn:Ec;
      [|discriminate].
    simpl in Hs.
    destruct (detect threshold rest p) as [steps'|e] eqn:Er; [|discriminate].
    inversion Hs; subst steps. clear Hs.
    unfold handle_readings. simpl for_each. unfold bind.
    rewrite (handle_reading_step _ _ _ _ _ _ Hf Ec).
    fold (handle_readings threshold rest).
    rewrite (IH {| recv_buf := recv_buf st; is_pressed := p;
                   events := events st ++ reading_events (f, t) (p, c) |}
                steps' Hr Er). simpl.
    rewrite <- app_assoc. reflexivity.
Qed.

End LoopDetector.

(** ** The click logic as an edge detector *)

Section EdgeDetector.

(** In instant mode the force is not looked at. *)
Lemma click_logic_instant force_value is_touched pressed :
  click_logic 1 force_value is_touched pressed =
  Ok (is_touched, is_touched && negb pressed).
Proof. destruct is_touched, pressed; reflexivity. Qed.

(** In threshold mode an int force presses from the threshold on and
    releases below it. *)
Lemma click_logic_threshold_int threshold z is_touched pressed :
  threshold <> 1 ->
  click_logic threshold (PInt z) is_touched pressed =
  Ok (threshold <=? z, (threshold <=? z) && negb pressed).
Proof.
  intros Ht. unfold click_logic.
  destruct (threshold =? 1) eqn:E; [apply Z.eqb_eq in E; contradiction|].
  simpl. rewrite Z.ltb_antisym.
  destruct (threshold <=? z), pressed; reflexivity.
Qed.

(** A click is exactly a step from released to pressed. *)
Lemma click_is_rising_edge threshold force_value is_touched pressed pressed' click :
  click_logic threshold force_value is_touched pressed = Ok (pressed', click) ->
  click = negb pressed && pressed'.
Proof.
  unfold click_logic. destruct (threshold =? 1).
  - destruct is_touched, pressed; simpl; intros H; inversion H; reflexivity.
  - destruct (py_ge_int force_value threshold) as [ge|e]; simpl; [|discriminate].
    destruct (py_lt_int force_value threshold) as [lt|e'];
      destruct ge, pressed; simpl; try discriminate;
      try (destruct lt; simpl); intros H; inversion H; reflexivity.
Qed.

Lemma py_lt_of_ge v n : py_ge_int v n = Ok true -> py_lt_int v n = Ok false.
Proof.
  destruct v as [|b|z|f|s|l|d]; simpl; try discriminate.
  - intros H. inversion H as [H']. rewrite Z.ltb_antisym, H'. reflexivity.
  - intros H. inversion H as [H']. rewrite Z.ltb_antisym, H'. reflexivity.
  - destruct (float_compare_int f n) as [[]|]; try discriminate; reflexivity.
Qed.

(** A reading that satisfies the press condition leaves the detector
    pressed, and clicks exactly when it was released. *)
Lemma click_logic_press threshold reading pressed :
  press_condition threshold reading = true ->
  click_logic threshold (fst reading) (snd reading) pressed =
  Ok (true, negb pressed).
Proof.
  unfold press_condition, click_logic. destruct reading as [f t]. simpl.
  destruct (threshold =? 1).
  - intros ->. destruct pressed; reflexivity.
  - destruct (py_ge_int f threshold) as [ge|e] eqn:Ege; [|discriminate].
    intros ->. simpl. destruct pressed; simpl; [|reflexivity].
    rewrite (py_lt_of_ge _ _ Ege). reflexivity.
Qed.

Lemma detect_pressed_run threshold readings :
  Forall (fun r => press_condition threshold r = true) readings ->
  detect threshold readings true = Ok (repeat (true, false) (length readings)).
Proof.
  induction 1 as [|[f t] rest Hr Hrest IH]; [reflexivity|].
  simpl detect. pose proof (click_logic_press threshold (f, t) true Hr) as Hc.
  simpl in Hc. rewrite Hc. simpl. rewrite IH. reflexivity.
Qed.

(** C3.  Threshold 5, released at the start: the forces 3, 5, 6, 4, 5
    give two clicks, on the second and the fifth reading.  With this
    threshold an int force [z] leaves the detector pressed exactly
    when [5 <= z], so a force of 5 presses, or stays pressed, and
    only a force below 5 releases.  The monitoring loop fed the five
    readings as telemetry lines shows the five forces and clicks after
    the second and the fifth. *)
Theorem threshold_mode_example :
  (forall t1 t2 t3 t4 t5 : bool,
      detect 5 [(PInt 3, t1); (PInt 5, t2); (PInt 6, t3);
                (PInt 4, t4); (PInt 5, t5)] false
      = Ok [(false, false); (true, true); (true, false);
            (false, false); (true, true)])
  /\ (forall (z : Z) (is_touched pressed : bool),
         click_logic 5 (PInt z) is_touched pressed
         = Ok (5 <=? z, (5 <=? z) && negb pressed))
  /\ monitor_loop 5
       [json_bytes "{'m':0,'p':[[63,[3,0]]]}" ++ [CR];
        json_bytes "{'m':0,'p':[[63,[5,1]]]}" ++ [CR];
        json_bytes "{'m':0,'p':[[63,[6,1]]]}" ++ [CR];
        json_bytes "{'m':0,'p':[[63,[4,1]]]}" ++ [CR];
        json_bytes "{'m':0,'p':[[63,[5,1]]]}" ++ [CR]]
       initial_state
     = (Ok tt,
        {| recv_buf := [];
           is_pressed := true;
           events := [Display (PInt 3); Display (PInt 5); Click;
                      Display (PInt 6); Display (PInt 4);
                      Display (PInt 5); Click] |}).
Proof.
  split; [|split].
  - intros. reflexivity.
  - intros. apply click_logic_threshold_int. discriminate.
  - vm_compute. reflexivity.
Qed.

(** C4.  Instant mode, released at the start: the touched flags
    false, true, true, false, true give two clicks, on the second and
    the fifth reading, whatever the forces.  A reading leaves the
    detector pressed exactly when it is touched, and clicks exactly
    when it is touched and the detector was released.  The monitoring
    loop fed the five readings as telemetry lines clicks after the
    second and the fifth. *)
Theorem instant_mode_example :
  (forall f1 f2 f3 f4 f5 : pyval,
      detect 1 [(f1, false); (f2, true); (f3, true);
                (f4, false); (f5, true)] false
      = Ok [(false, false); (true, true); (true, false);
            (false, false); (true, true)])
  /\ (forall (f : pyval) (is_touched pressed : bool),
         click_logic 1 f is_touched pressed
         = Ok (is_touched, is_touched && negb pressed))
  /\ monitor_loop 1
       [json_bytes "{'m':0,'p':[[63,[0,0]]]}" ++ [CR];
        json_bytes "{'m':0,'p':[[63,[2,1]]]}" ++ [CR];
        json_bytes "{'m':0,'p':[[63,[7,1]]]}" ++ [CR];
        json_bytes "{'m':0,'p':[[63,[0,0]]]}" ++ [CR];
        json_bytes "{'m':0,'p':[[63,[1,1]]]}" ++ [CR]]
       initial_state
     = (Ok tt,
        {| recv_buf := [];
           is_pressed := true;
           events := [Display (PInt 0); Display (PInt 2); Click;
                      Display (PInt 7); Display (PInt 0);
                      Display (PInt 1); Click] |}).
Proof.
  split; [|split].
  - intros. reflexivity.
  - intros. apply click_logic_instant.
  - vm_compute. reflexivity.
Qed.

Lemma detect_released_run threshold readings :
  readings <> [] ->
  Forall (fun r => press_condition threshold r = true) readings ->
  detect threshold readings false =
  Ok ((true, true) :: repeat (true, false) (length readings - 1)).
Proof.
  intros Hne Hall.
  destruct readings as [|[f t] rest]; [contradiction|].
  inversion Hall as [|r rs Hr Hrest]; subst.
  simpl detect. pose proof (click_logic_press threshold (f, t) false Hr) as Hc.
  simpl in Hc. rewrite Hc.
  simpl. rewrite (detect_pressed_run threshold rest Hrest).
  simpl. rewrite Nat.sub_0_r. reflexivity.
Qed.

Lemma filter_snd_repeat n :
  filter snd (repeat (true, false) n) = @nil (bool * bool).
Proof. induction n; [reflexivity|assumption]. Qed.

(** C5.  From the released state, a run of [N >= 1] readings that all
    satisfy the press condition clicks exactly once, on its first
    reading, in both modes and for every threshold; and a step of the
    click logic clicks exactly when it goes from released to
    pressed. *)
Theorem no_double_fire threshold readings :
  readings <> [] ->
  Forall (fun r => press_condition threshold r = true) readings ->
  (exists steps,
      detect threshold readings false = Ok steps
      /\ steps = (true, true) :: repeat (true, false) (length readings - 1)
      /\ length (filter snd steps) = 1%nat)
  /\ (forall f t pressed pressed' click,
         click_logic threshold f t pressed = Ok (pressed', click) ->
         click = negb pressed && pressed').
Proof.
  intros Hne Hall. split; [|apply click_is_rising_edge].
  eexists. split; [apply detect_released_run; assumption|].
  split; [reflexivity|].
  simpl. rewrite filter_snd_repeat. reflexivity.
Qed.

Lemma no_double_fire_witness :
  (exists steps,
      detect 5 [(PInt 5, false); (PFloat (S754_infinity false), false);
                (PInt 9, true)] false = Ok steps
      /\ steps = (true, true) :: repeat (true, false) (3 - 1)
      /\ length (filter snd steps) = 1%nat)
  /\ (forall f t pressed pressed' click,
         click_logic 5 f t pressed = Ok (pressed', click) ->
         click = negb pressed && pressed').
Proof.
  apply (no_double_fire 5 [(PInt 5, false); (PFloat (S754_infinity false), false);
                           (PInt 9, true)]).
  - discriminate.
  - repeat constructor.
Defined.

Lemma detect_instant_flags readings1 readings2 pressed :
  map snd readings1 = map snd readings2 ->
  detect 1 readings1 pressed = detect 1 readings2 pressed.
Proof.
  revert readings2 pressed.
  induction readings1 as [|[f1 t1] rest1 IH];
    intros [|[f2 t2] rest2] pressed H; try discriminate; [reflexivity|].
  simpl in H. inversion H; subst.
  simpl detect. rewrite !click_logic_instant. simpl.
  rewrite (IH rest2 t2) by assumption. reflexivity.
Qed.

(** C9.  In instant mode two sequences of readings with the same
    touched flags, whatever their forces, take the detector through
    the same states and give the same clicks. *)
Theorem instant_mode_ignores_force readings1 readings2 pressed :
  map snd readings1 = map snd readings2 ->
  detect 1 readings1 pressed = detect 1 readings2 pressed.
Proof. apply detect_instant_flags. Qed.

Lemma instant_mode_ignores_force_witness :
  detect 1 [(PInt 0, true); (PFloat S754_nan, true); (PNone, false)] false
  = detect 1 [(PInt 10, true); (PInt 3, true); (PStr [], false)] false.
Proof.
  apply instant_mode_ignores_force. reflexivity.
Defined.

Lemma detect_instant_total readings : forall pressed,
  exists steps, detect 1 readings pressed = Ok steps.
Proof.
  induction readings as [|[f t] rest IH]; intros pressed.
  - exists []. reflexivity.
  - simpl detect. rewrite click_logic_instant. simpl.
    destruct (IH t) as [steps Hs]. rewrite Hs. eexists. reflexivity.
Qed.

Lemma clicks_app evs evs' : clicks (evs ++ evs') = (clicks evs + clicks evs')%nat.
Proof. unfold clicks. rewrite filter_app, length_app. reflexivity. Qed.

Lemma clicks_reading_events readings : forall steps,
  length readings = length steps ->
  clicks (concat (map (fun rs => reading_events (fst rs) (snd rs))
                      (combine readings steps)))
  = length (filter snd steps).
Proof.
  induction readings as [|r rest IH]; intros [|[p c] steps] Hl;
    try discriminate; [reflexivity|].
  simpl in Hl. inversion Hl as [Hl'].
  cbn [combine map concat]. rewrite clicks_app, (IH _ Hl').
  unfold reading_events. simpl. destruct c; reflexivity.
Qed.

Lemma detect_length threshold readings : forall pressed steps,
  detect threshold readings pressed = Ok steps ->
  length readings = length steps.
Proof.
  induction readings as [|[f t] rest IH]; intros pressed steps H.
  - inversion H. reflexivity.
  - simpl detect in H.
    destruct (click_logic threshold f t pressed) as [[p c]|e]; [|discriminate].
    simpl in H. destruct (detect threshold rest p) as [steps'|e] eqn:E;
      [|discriminate].
    inversion H. simpl. f_equal. eapply IH. exact E.
Qed.

(** In the loop too: in instant mode, two sequences of displayable
    readings with the same touched flags leave the same state and
    click as often. *)
Lemma instant_mode_loop_ignores_force readings1 readings2 st :
  map snd readings1 = map snd readings2 ->
  forallb (fun r => displayable (fst r)) readings1 = true ->
  forallb (fun r => displayable (fst r)) readings2 = true ->
  exists st1 st2,
    handle_readings 1 readings1 st = (Ok tt, st1)
    /\ handle_readings 1 readings2 st = (Ok tt, st2)
    /\ is_pressed st1 = is_pressed st2
    /\ clicks (events st1) = clicks (events st2).
Proof.
  intros Ht Hd1 Hd2.
  destruct (detect_instant_total readings1 (is_pressed st)) as [steps Hs1].
  pose proof Hs1 as Hs2.
  rewrite (detect_instant_flags readings1 readings2 _ Ht) in Hs2.
  rewrite (handle_readings_detect 1 readings1 st steps Hd1 Hs1).
  rewrite (handle_readings_detect 1 readings2 st steps Hd2 Hs2).
  eexists. eexists. split; [reflexivity|split; [reflexivity|]].
  cbn [is_pressed events]. split; [reflexivity|].
  rewrite !clicks_app, !clicks_reading_events; [reflexivity| |].
  - eapply detect_length; eassumption.
  - eapply detect_length; eassumption.
Qed.

(** In the loop too: a run of displayable readings that satisfy the
    press condition, from the released state, adds one click. *)
Lemma no_double_fire_loop threshold readings st :
  readings <> [] ->
  is_pressed st = false ->
  Forall (fun r => press_condition threshold r = true) readings ->
  forallb (fun r => displayable (fst r)) readings = true ->
  exists st',
    handle_readings threshold readings st = (Ok tt, st')
    /\ is_pressed st' = true
    /\ clicks (events st') = S (clicks (events st)).
Proof.
  intros Hne Hp Hall Hd.
  assert (Hs : detect threshold readings (is_pressed st) =
               Ok ((true, true) :: repeat (true, false) (length readings - 1)))
    by (rewrite Hp; apply detect_released_run; assumption).
  rewrite (handle_readings_detect threshold readings st _ Hd Hs).
  eexists. split; [reflexivity|]. cbn [is_pressed events]. split.
  - unfold final_pressed. simpl. clear.
    induction (length readings - 1)%nat; [reflexivity|assumption].
  - rewrite clicks_app, clicks_reading_events.
    + cbn [filter snd length]. rewrite filter_snd_repeat. simpl. lia.
    + eapply detect_length. exact Hs.
Qed.

End EdgeDetector.

(** ** The scanner has fuel enough *)

Section Totality.
Local Open Scope nat_scope.

Lemma consumes_weaken {A} (r : result (A * str)) t s :
  consumes r t -> length t <= length s -> consumes r s.
Proof.
  unfold consumes. destruct r as [[a rest]|e]; [lia|auto].
Qed.

Lemma consumes_cons_str c r t s :
  consumes r t -> length t <= length s -> consumes (cons_str c r) s.
Proof.
  unfold consumes, cons_str. destruct r as [[a rest]|e]; [lia|auto].
Qed.

Lemma consumes_raise {A} s : @consumes A (Raise JSONDecodeError) s.
Proof. reflexivity. Qed.

Lemma scanstring_consumes n : forall s, length s <= n -> consumes (scanstring s) s.
Proof.
  induction n as [|n IH]; intros s Hn.
  - destruct s; [apply consumes_raise|simpl in Hn; lia].
  - destruct s as [|c s1]; [apply consumes_raise|].
    simpl in Hn. cbn [scanstring].
    destruct (c =? QUOTE)%N; [simpl; lia|].
    destruct (c =? BACKSLASH)%N.
    + destruct s1 as [|e s2]; [apply consumes_raise|].
      destruct (e =? 117)%N.
      * destruct s2 as [|h1 [|h2 [|h3 [|h4 s3]]]]; try apply consumes_raise.
        destruct (hex4 h1 h2 h3 h4) as [uni|]; [|apply consumes_raise].
        assert (H3 : consumes (cons_str uni (scanstring s3))
                              (c :: e :: h1 :: h2 :: h3 :: h4 :: s3)).
        { apply consumes_cons_str with s3; [apply IH|]; simpl in *; lia. }
        destruct (is_high_surrogate uni); [|exact H3].
        destruct s3 as [|b [|u s4]]; try exact H3.
        destruct ((b =? BACKSLASH) && (u =? 117))%N; [|exact H3].
        destruct s4 as [|k1 [|k2 [|k3 [|k4 s5]]]]; try apply consumes_raise.
        destruct (hex4 k1 k2 k3 k4) as [uni2|]; [|apply consumes_raise].
        destruct (is_low_surrogate uni2); [|exact H3].
        apply consumes_cons_str with s5; [apply IH|]; simpl in *; lia.
      * destruct (unescape e); [|apply consumes_raise].
        apply consumes_cons_str with s2; [apply IH|]; simpl in *; lia.
    + destruct (c <? 32)%N; [apply consumes_raise|].
      apply consumes_cons_str with s1; [apply IH|]; simpl in *; lia.
Qed.

Lemma skip_ws_length s : length (skip_ws s) <= length s.
Proof.
  induction s as [|c s IH]; [apply Nat.le_refl|].
  simpl. destruct (is_ws c); simpl; lia.
Qed.

Lemma take_digits_length s : length (snd (take_digits s)) <= length s.
Proof.
  induction s as [|c s IH]; [apply Nat.le_refl|].
  simpl. destruct (digit_of c); [|apply Nat.le_refl].
  destruct (take_digits s). simpl in *. lia.
Qed.

Lemma strip_prefix_length p : forall s rest,
  strip_prefix p s = Some rest -> length s = length p + length rest.
Proof.
  induction p as [|a p IH]; intros s rest H.
  - inversion H. reflexivity.
  - destruct s as [|b s]; [discriminate|]. simpl in H.
    destruct (a =? b)%N; [|discriminate].
    simpl. f_equal. apply IH. exact H.
Qed.

Lemma match_number_length s v rest :
  match_number s = Some (v, rest) -> length rest < length s.
Proof.
  unfold match_number.
  assert (Hsign : length (snd (take_sign s)) <= length s).
  { destruct s as [|c s']; [apply Nat.le_refl|]. simpl.
    destruct (c =? 45)%N; simpl; lia. }
  destruct (take_sign s) as [neg s1]. simpl in Hsign.
  assert (Hinteger : forall i s2, take_integer s1 = Some (i, s2) ->
                              length s2 < length s1).
  { intros i s2. unfold take_integer. destruct s1 as [|c s1']; [discriminate|].
    destruct (c =? 48)%N.
    - intros H. inversion H. simpl. lia.
    - pose proof (take_digits_length (c :: s1')) as Hd.
      destruct (take_digits (c :: s1')) as [u r] eqn:E.
      destruct (is_nil u) eqn:En; [discriminate|].
      intros H. inversion H; subst. simpl in E.
      destruct (digit_of c); [|inversion E; subst; discriminate].
      pose proof (take_digits_length s1') as Hd'.
      destruct (take_digits s1'). inversion E; subst. simpl in *. lia. }
  destruct (take_integer s1) as [[i s2]|]; [|discriminate].
  specialize (Hinteger i s2 eq_refl).
  assert (Hfrac : length (snd (take_frac s2)) <= length s2).
  { unfold take_frac. destruct s2 as [|c s2']; [apply Nat.le_refl|].
    destruct (c =? 46)%N; [|apply Nat.le_refl].
    pose proof (take_digits_length s2') as Hd.
    destruct (take_digits s2') as [u r]. destruct (is_nil u); simpl in *; lia. }
  destruct (take_frac s2) as [f s3]. simpl in Hfrac.
  assert (Hexp : length (snd (take_exp s3)) <= length s3).
  { unfold take_exp. destruct s3 as [|c s3']; [apply Nat.le_refl|].
    destruct ((c =? 101) || (c =? 69))%N; [|apply Nat.le_refl].
    assert (Hsg : length (snd (match s3' with
                                | sg :: t =>
                                    if (sg =? 45)%N then (true, t)
                                    else if (sg =? 43)%N then (false, t)
                                    else (false, s3')
                                | [] => (false, s3')
                                end)) <= length s3').
    { destruct s3' as [|sg t]; [apply Nat.le_refl|].
      destruct (sg =? 45)%N; [simpl; lia|].
      destruct (sg =? 43)%N; simpl; lia. }
    destruct (match s3' with
              | sg :: t =>
                  if (sg =? 45)%N then (true, t)
                  else if (sg =? 43)%N then (false, t)
                  else (false, s3')
              | [] => (false, s3')
              end) as [eneg s'']. simpl in Hsg.
    pose proof (take_digits_length s'') as Hd.
    destruct (take_digits s'') as [u r]. destruct (is_nil u); simpl in *; lia. }
  destruct (take_exp s3) as [e s4]. simpl in Hexp.
  intros H. inversion H; subst. lia.
Qed.

Lemma consumes_bind {A B} (r : result (A * str)) (k : A * str -> result (B * str)) t s :
  consumes r t ->
  (forall a rest, length rest < length t -> consumes (k (a, rest)) s) ->
  consumes (rbind r k) s.
Proof.
  unfold consumes at 1, rbind. destruct r as [[a rest]|e]; [|intros H _; exact H].
  intros H Hk. apply Hk. exact H.
Qed.

Lemma scanner_consumes fuel :
  (forall s, 2 * length s < fuel -> consumes (scan_once fuel s) s)
  /\ (forall s, 2 * length s + 1 < fuel -> consumes (scan_items fuel s) s)
  /\ (forall s, 2 * length s + 1 < fuel -> consumes (scan_pairs fuel s) s).
Proof.
  induction fuel as [|fuel (IHonce & IHitems & IHpairs)];
    [repeat split; intros; lia|].
  split; [|split]; intros s Hf.
  - (* scan_once *)
    destruct s as [|c s']; [apply consumes_raise|].
    cbn [scan_once]. simpl length in Hf.
    destruct (c =? QUOTE)%N.
    { apply consumes_bind with s'.
      - apply (scanstring_consumes (length s')). apply Nat.le_refl.
      - intros x rest Hr. simpl. lia. }
    destruct (c =? 123)%N.
    { pose proof (skip_ws_length s') as Hw.
      destruct (skip_ws s') as [|c1 s2]; [apply consumes_raise|].
      simpl in Hw.
      destruct (c1 =? 125)%N; [simpl; lia|].
      destruct (c1 =? QUOTE)%N; [|apply consumes_raise].
      apply consumes_bind with s2.
      - apply IHpairs. lia.
      - intros x rest Hr. simpl. lia. }
    destruct (c =? 91)%N.
    { pose proof (skip_ws_length s') as Hw.
      destruct (skip_ws s') as [|c1 s2] eqn:E; [apply consumes_raise|].
      simpl in Hw.
      destruct (c1 =? 93)%N; [simpl; lia|].
      apply consumes_bind with (c1 :: s2).
      - apply IHitems. simpl. lia.
      - intros x rest Hr. simpl in *. lia. }
    destruct (strip_prefix (str_of_string "null") (c :: s')) as [rest|] eqn:E1.
    { apply strip_prefix_length in E1. simpl in *. lia. }
    destruct (strip_prefix (str_of_string "true") (c :: s')) as [rest|] eqn:E2.
    { apply strip_prefix_length in E2. simpl in *. lia. }
    destruct (strip_prefix (str_of_string "false") (c :: s')) as [rest|] eqn:E3.
    { apply strip_prefix_length in E3. simpl in *. lia. }
    destruct (match_number (c :: s')) as [[v rest]|] eqn:E4.
    { apply match_number_length in E4. simpl in *. lia. }
    destruct (strip_prefix (str_of_string "NaN") (c :: s')) as [rest|] eqn:E5.
    { apply strip_prefix_length in E5. simpl in *. lia. }
    destruct (strip_prefix (str_of_string "Infinity") (c :: s')) as [rest|] eqn:E6.
    { apply strip_prefix_length in E6. simpl in *. lia. }
    destruct (strip_prefix (str_of_string "-Infinity") (c :: s')) as [rest|] eqn:E7.
    { apply strip_prefix_length in E7. simpl in *. lia. }
    apply consumes_raise.
  - (* scan_items *)
    cbn [scan_items].
    apply consumes_bind with s; [apply IHonce; lia|].
    intros value s1 H1.
    pose proof (skip_ws_length s1) as Hw.
    destruct (skip_ws s1) as [|c s2]; [apply consumes_raise|].
    simpl in Hw.
    destruct (c =? 93)%N; [simpl; lia|].
    destruct (c =? 44)%N; [|apply consumes_raise].
    pose proof (skip_ws_length s2) as Hw2.
    apply consumes_bind with (skip_ws s2).
    + apply IHitems. lia.
    + intros x rest Hr. simpl. lia.
  - (* scan_pairs *)
    cbn [scan_pairs].
    apply consumes_bind with s;
      [apply (scanstring_consumes (length s)); apply Nat.le_refl|].
    intros key s1 H1.
    pose proof (skip_ws_length s1) as Hw.
    destruct (skip_ws s1) as [|c s2]; [apply consumes_raise|].
    simpl in Hw.
    destruct (c =? 58)%N; [|apply consumes_raise].
    pose proof (skip_ws_length s2) as Hw2.
    apply consumes_bind with (skip_ws s2); [apply IHonce; lia|].
    intros value s3 H3.
    pose proof (skip_ws_length s3) as Hw3.
    destruct (skip_ws s3) as [|c' s4]; [apply consumes_raise|].
    simpl in Hw3.
    destruct (c' =? 125)%N; [simpl; lia|].
    destruct (c' =? 44)%N; [|apply consumes_raise].
    pose proof (skip_ws_length s4) as Hw4.
    destruct (skip_ws s4) as [|q s5]; [apply consumes_raise|].
    simpl in Hw4.
    destruct (q =? QUOTE)%N; [|apply consumes_raise].
    apply consumes_bind with s5; [apply IHpairs; lia|].
    intros x rest Hr. simpl. lia.
Qed.

Lemma json_loads_cases s :
  json_loads s = Raise JSONDecodeError
  \/ json_loads s =
     (x <- scan_once (S (2 * length s)) (skip_ws s) ;;
      (let '(obj, rest) := x in
       match skip_ws rest with
       | [] => Ok obj
       | _ :: _ => Raise JSONDecodeError
       end))%result.
Proof.
  destruct s as [|c t]; [right; reflexivity|].
  destruct c as [|p]; [right; reflexivity|].
  do 16 (destruct p as [p|p|]; try (right; reflexivity)).
  all: left; reflexivity.
Qed.

(** [json_loads] gives the scanner enough fuel: it returns a value or
    raises [JSONDecodeError], never [RecursionError]. *)
Lemma json_loads_total s e : json_loads s = Raise e -> e = JSONDecodeError.
Proof.
  destruct (json_loads_cases s) as [H|H]; rewrite H; [congruence|].
  destruct (scanner_consumes (S (2 * length s))) as (Honce & _ & _).
  pose proof (skip_ws_length s) as Hw.
  specialize (Honce (skip_ws s) ltac:(lia)).
  unfold consumes in Honce. unfold rbind.
  destruct (scan_once (S (2 * length s)) (skip_ws s)) as [[obj rest]|e'].
  - destruct (skip_ws rest); congruence.
  - congruence.
Qed.
End Totality.

(** ** The exceptions of the decoder *)

Section Exceptions.

Lemma utf8_decode_raises n : forall bs e,
  (length bs <= n)%nat -> utf8_decode bs = Raise e -> e = UnicodeDecodeError.
Proof.
  assert (Hcons : forall c r e,
             (forall e', r = Raise e' -> e' = UnicodeDecodeError) ->
             cons_ok c r = Raise e -> e = UnicodeDecodeError).
  { intros c r e Hr. destruct r as [s|e']; simpl; [discriminate|].
    intros H. inversion H; subst. apply Hr. reflexivity. }
  induction n as [|n IH]; intros bs e Hn.
  - destruct bs; [discriminate|simpl in Hn; lia].
  - destruct bs as [|b0 r0]; [discriminate|]. simpl in Hn.
    cbn [utf8_decode]. cbv zeta.
    destruct (Byte.to_N b0 <? 128)%N.
    { apply Hcons. intros e'. apply IH. lia. }
    destruct (in_range 194 223 b0).
    { destruct r0 as [|b1 r1]; [congruence|].
      destruct (in_range 128 191 b1); [|congruence].
      apply Hcons. intros e'. apply IH. simpl in Hn. lia. }
    destruct (in_range 224 239 b0).
    { destruct r0 as [|b1 [|b2 r2]]; try congruence.
      destruct (second_of_three (Byte.to_N b0) b1 && in_range 128 191 b2);
        [|congruence].
      apply Hcons. intros e'. apply IH. simpl in Hn. lia. }
    destruct (in_range 240 244 b0); [|congruence].
    destruct r0 as [|b1 [|b2 [|b3 r3]]]; try congruence.
    destruct (second_of_four (Byte.to_N b0) b1 && in_range 128 191 b2
              && in_range 128 191 b3); [|congruence].
    apply Hcons. intros e'. apply IH. simpl in Hn. lia.
Qed.

Lemma bind_raises {A B} (m : M A) (k : A -> M B) (allowed : exn -> bool) :
  (forall st e st', m st = (Raise e, st') -> allowed e = true) ->
  (forall a st e st', k a st = (Raise e, st') -> allowed e = true) ->
  forall st e st', bind m k st = (Raise e, st') -> allowed e = true.
Proof.
  intros Hm Hk st e st'. unfold bind.
  destruct (m st) as [[a|e1] st1] eqn:E.
  - apply Hk.
  - intros H. inversion H; subst. eapply Hm. exact E.
Qed.

Lemma lift_raises {A} (r : result A) (allowed : exn -> bool) :
  (forall e, r = Raise e -> allowed e = true) ->
  forall st e st', lift r st = (Raise e, st') -> allowed e = true.
Proof.
  intros Hr st e st' H. unfold lift in H. inversion H; subst. apply Hr. reflexivity.
Qed.

Lemma for_each_raises {A} (body : A -> M unit) (allowed : exn -> bool) xs :
  (forall x st e st', body x st = (Raise e, st') -> allowed e = true) ->
  forall st e st', for_each body xs st = (Raise e, st') -> allowed e = true.
Proof.
  intros Hb. induction xs as [|x xs IH]; intros st e st'; [discriminate|].
  simpl for_each. apply bind_raises; [apply Hb|intros _; apply IH].
Qed.

Lemma getitem_int_raises v i e :
  getitem_int v i = Raise e -> shape_error e = true.
Proof.
  destruct v; simpl; try (intros H; inversion H; reflexivity).
  - destruct (nth_error s i); [discriminate|]. intros H; inversion H; reflexivity.
  - destruct (nth_error l i); [discriminate|]. intros H; inversion H; reflexivity.
Qed.

Lemma getitem_str_raises v k e :
  getitem_str v k = Raise e -> shape_error e = true.
Proof.
  destruct v; simpl; try (intros H; inversion H; reflexivity).
  destruct (dict_get d k); [discriminate|]. intros H; inversion H; reflexivity.
Qed.

Lemma py_iter_raises v e : py_iter v = Raise e -> shape_error e = true.
Proof. destruct v; simpl; try discriminate; intros H; inversion H; reflexivity. Qed.

Lemma click_logic_displayable threshold f t pressed :
  displayable f = true ->
  exists r, click_logic threshold f t pressed = Ok r.
Proof.
  unfold displayable, click_logic. intros Hd.
  destruct (threshold =? 1).
  - destruct (t && negb pressed); [eexists; reflexivity|].
    destruct (negb t && pressed); eexists; reflexivity.
  - destruct f; try discriminate; simpl;
      match goal with
      | |- context [if ?c && negb pressed then _ else _] =>
          destruct (c && negb pressed); [eexists; reflexivity|]
      end;
      match goal with
      | |- context [if ?c && pressed then _ else _] =>
          destruct (c && pressed); eexists; reflexivity
      end.
Qed.

(** A reading raises only when its force cannot be shown. *)
Lemma handle_reading_raises threshold f t st e st' :
  handle_reading threshold f t st = (Raise e, st') ->
  format_2f f = Raise e.
Proof.
  unfold handle_reading, bind, lift, emit, get_pressed, set_pressed, ret.
  destruct (format_2f f) as [[]|e1] eqn:Ef;
    [|intros H; inversion H; reflexivity].
  simpl.
  destruct (click_logic_displayable threshold f t (is_pressed st)) as [r Hr];
    [unfold displayable; rewrite Ef; reflexivity|].
  rewrite Hr. simpl. destruct (snd r); discriminate.
Qed.

Lemma format_2f_raises f e : format_2f f = Raise e -> shape_error e = true.
Proof.
  destruct f; simpl; try discriminate;
    try (intros H; inversion H; reflexivity).
  destruct (int_too_large_for_float z); [|discriminate].
  intros H; inversion H; reflexivity.
Qed.

Lemma handle_item_raises threshold item st e st' :
  handle_item threshold item st = (Raise e, st') -> shape_error e = true.
Proof.
  destruct item as [|b|z|f|s|l|d]; try discriminate.
  revert st e st'. unfold handle_item.
  apply bind_raises; [apply lift_raises, getitem_int_raises|].
  intros port. destruct (py_eq_int port 63); [|discriminate].
  apply bind_raises; [apply lift_raises, getitem_int_raises|]. intros values.
  apply bind_raises; [apply lift_raises, getitem_int_raises|]. intros force_value.
  apply bind_raises; [apply lift_raises, getitem_int_raises|]. intros values'.
  apply bind_raises; [apply lift_raises, getitem_int_raises|]. intros touched.
  intros st e st' H. apply handle_reading_raises in H.
  eapply format_2f_raises. exact H.
Qed.

Lemma handle_message_raises threshold message st e st' :
  handle_message threshold message st = (Raise e, st') -> shape_error e = true.
Proof.
  revert st e st'. unfold handle_message.
  apply bind_raises; [apply lift_raises, getitem_str_raises|].
  intros m. destruct (py_eq_int m 0); [|discriminate].
  apply bind_raises; [apply lift_raises, getitem_str_raises|]. intros p.
  apply bind_raises; [apply lift_raises, py_iter_raises|]. intros items.
  apply for_each_raises. intros item. apply handle_item_raises.
Qed.

(** What leaves the decoder is one of the four exceptions that the
    [except] clause does not name. *)
Lemma process_line_escapes threshold line st e st' :
  process_line threshold line st = (Raise e, st') -> escapes e = true.
Proof.
  unfold process_line, try_pass.
  set (body := bind _ _).
  assert (Hbody : forall st e st',
             body st = (Raise e, st') -> escapes e || caught e = true).
  { subst body. apply bind_raises.
    - apply lift_raises. intros e0 H0.
      apply (utf8_decode_raises (length line)) in H0; [|apply Nat.le_refl].
      subst e0. reflexivity.
    - intros text. apply bind_raises.
      + apply lift_raises. intros e0 H0. apply json_loads_total in H0.
        subst e0. reflexivity.
      + intros message st0 e0 st0' H0. apply handle_message_raises in H0.
        destruct e0; try discriminate; reflexivity. }
  destruct (body st) as [[[]|e1] st1] eqn:E; [discriminate|].
  apply Hbody in E. destruct (caught e1); [discriminate|].
  intros H. inversion H; subst. rewrite orb_false_r in E. exact E.
Qed.

End Exceptions.

(** ** The telemetry decoder *)

Section Decoder.

Lemma handle_item_reading threshold item st :
  entry_ok item = true ->
  handle_item threshold item st =
  match entry_reading item with
  | Some r => handle_reading threshold (fst r) (snd r) st
  | None => (Ok tt, st)
  end.
Proof.
  destruct item as [|b|z|f|s|l|d]; try reflexivity.
  destruct l as [|port rest]; [discriminate|].
  unfold entry_ok, entry_reading, handle_item.
  unfold bind at 1. simpl.
  destruct (py_eq_int port 63); [|destruct rest as [|[] ?]; try reflexivity; destruct l as [|? [|? ?]]; reflexivity].
  destruct rest as [|[|?|?|?|?|vs|?] rest']; try discriminate.
  destruct vs as [|fv [|tv vs']]; try discriminate.
  intros _. reflexivity.
Qed.

Lemma handle_items_readings threshold items : forall st,
  forallb entry_ok items = true ->
  for_each (handle_item threshold) items st =
  handle_readings threshold (port_readings items) st.
Proof.
  induction items as [|item items IH]; intros st H; [reflexivity|].
  simpl in H. apply andb_true_iff in H as [Hi Hr].
  simpl for_each. unfold bind. rewrite (handle_item_reading _ _ _ Hi).
  unfold port_readings, handle_readings in *. simpl flat_map.
  destruct (entry_reading item) as [r|]; simpl.
  - unfold bind. destruct (handle_reading threshold (fst r) (snd r) st) as [[[]|e] st1];
      [apply IH; assumption|reflexivity].
  - apply IH; assumption.
Qed.

Lemma handle_reading_uncaught threshold f t st e st' :
  handle_reading threshold f t st = (Raise e, st') -> caught e = false.
Proof.
  intros H. apply handle_reading_raises in H.
  destruct f; simpl in H; try discriminate; try (inversion H; reflexivity).
  destruct (int_too_large_for_float z); [inversion H; reflexivity|discriminate].
Qed.

Lemma handle_readings_uncaught threshold readings : forall st e st',
  handle_readings threshold readings st = (Raise e, st') -> caught e = false.
Proof.
  induction readings as [|r rest IH]; intros st e st'; [discriminate|].
  unfold handle_readings in *. simpl for_each. unfold bind.
  destruct (handle_reading threshold (fst r) (snd r) st) as [[[]|e1] st1] eqn:E.
  - apply IH.
  - intros H. inversion H; subst. eapply handle_reading_uncaught; eassumption.
Qed.

Lemma float_5_5_exact :
  float_5_5 = float_of_decimal false 55 (-1)
  /\ float_compare_int float_5_5 5 = Some Gt
  /\ float_compare_int float_5_5 6 = Some Lt
  /\ 2 * 6192449487634432 = 11 * 2 ^ 50.
Proof. repeat split. Qed.

(** A decoded message of kind 0 with a well-formed payload list is
    handled as the sequence of the readings of its port 63 entries. *)
Lemma process_line_readings threshold line d m items st :
  rbind (utf8_decode line) json_loads = Ok (PDict d) ->
  dict_get d (str_of_string "m") = Some m ->
  py_eq_int m 0 = true ->
  dict_get d (str_of_string "p") = Some (PList items) ->
  forallb entry_ok items = true ->
  process_line threshold line st =
  handle_readings threshold (port_readings items) st.
Proof.
  intros Hline Hm Hm0 Hp Hok.
  unfold process_line, try_pass, bind, lift.
  destruct (utf8_decode line) as [text|e]; [|discriminate].
  simpl in Hline. rewrite Hline.
  unfold handle_message, bind, lift, getitem_str. rewrite Hm, Hm0, Hp. simpl.
  rewrite (handle_items_readings _ _ _ Hok).
  destruct (handle_readings threshold (port_readings items) st)
    as [[[]|e] st1] eqn:E; [reflexivity|].
  rewrite (handle_readings_uncaught _ _ _ _ _ E). reflexivity.
Qed.

Lemma handle_readings_one threshold f t st :
  handle_readings threshold [(f, t)] st = handle_reading threshold f t st.
Proof.
  unfold handle_readings. simpl. unfold bind.
  destruct (handle_reading threshold f t st) as [[[]|e] st1]; reflexivity.
Qed.

(** C7, as amended.  A line that decodes to a message with [m == 0]
    and a payload list whose entries are well formed gives one
    reading for each entry whose first element equals 63, in the
    order of the payload (several readings when several entries name
    port 63): the force is the first value of the entry and touched
    is true exactly when its second value equals 1; each reading is
    displayed and goes through the click logic.  The line
    [{"m":0,"p":[[63,[5.5,1]]]}] gives the one reading of force 5.5,
    touched; [{"m":0,"p":[[99,[5.5,1]]]}] gives none. *)
Theorem one_reading_per_port_entry threshold line d m items st :
  rbind (utf8_decode line) json_loads = Ok (PDict d) ->
  dict_get d (str_of_string "m") = Some m ->
  py_eq_int m 0 = true ->
  dict_get d (str_of_string "p") = Some (PList items) ->
  forallb entry_ok items = true ->
  process_line threshold line st =
  handle_readings threshold (port_readings items) st
  /\ process_line threshold (json_bytes "{'m':0,'p':[[63,[5.5,1]]]}") st =
     handle_reading threshold (PFloat float_5_5) true st
  /\ process_line threshold (json_bytes "{'m':0,'p':[[99,[5.5,1]]]}") st =
     (Ok tt, st).
Proof.
  intros Hline Hm Hm0 Hp Hok.
  split; [|split].
  - eapply process_line_readings; eassumption.
  - rewrite <- handle_readings_one.
    apply (process_line_readings threshold _
             (dict_of_pairs
                [(str_of_string "m", PInt 0);
                 (str_of_string "p",
                  PList [PList [PInt 63; PList [PFloat float_5_5; PInt 1]]])])
             (PInt 0)
             [PList [PInt 63; PList [PFloat float_5_5; PInt 1]]]);
      reflexivity.
  - apply (process_line_readings threshold _
             (dict_of_pairs
                [(str_of_string "m", PInt 0);
                 (str_of_string "p",
                  PList [PList [PInt 99; PList [PFloat float_5_5; PInt 1]]])])
             (PInt 0)
             [PList [PInt 99; PList [PFloat float_5_5; PInt 1]]]);
      reflexivity.
Qed.

Lemma one_reading_per_port_entry_witness :
  let line := json_bytes "{'m':0,'p':[[63,[5.5,1]],[12,[0,0]],[63,[0,0]]]}" in
  process_line 5 line initial_state =
  handle_readings 5 [(PFloat float_5_5, true); (PInt 0, false)] initial_state
  /\ process_line 5 (json_bytes "{'m':0,'p':[[63,[5.5,1]]]}") initial_state =
     handle_reading 5 (PFloat float_5_5) true initial_state
  /\ process_line 5 (json_bytes "{'m':0,'p':[[99,[5.5,1]]]}") initial_state =
     (Ok tt, initial_state).
Proof.
  intros line.
  apply (one_reading_per_port_entry 5 line
           (dict_of_pairs
              [(str_of_string "m", PInt 0);
               (str_of_string "p",
                PList [PList [PInt 63; PList [PFloat float_5_5; PInt 1]];
                       PList [PInt 12; PList [PInt 0; PInt 0]];
                       PList [PInt 63; PList [PInt 0; PInt 0]]])])
           (PInt 0)
           [PList [PInt 63; PList [PFloat float_5_5; PInt 1]];
            PList [PInt 12; PList [PInt 0; PInt 0]];
            PList [PInt 63; PList [PInt 0; PInt 0]]]
           initial_state); reflexivity.
Defined.

(** C7 as stated fails: one message with two entries on port 63
    gives two readings. *)
Lemma two_readings_from_one_message :
  let line := json_bytes "{'m':0,'p':[[63,[5.5,1]],[63,[0,0]]]}" in
  rbind (utf8_decode line) json_loads =
    Ok (PDict [(str_of_string "m", PInt 0);
               (str_of_string "p",
                PList [PList [PInt 63; PList [PFloat float_5_5; PInt 1]];
                       PList [PInt 63; PList [PInt 0; PInt 0]]])])
  /\ fst (process_line 5 line initial_state) = Ok tt
  /\ displayed (events (snd (process_line 5 line initial_state))) =
     [PFloat float_5_5; PInt 0]
  /\ ~ (length (displayed (events (snd (process_line 5 line initial_state))))
        <= 1)%nat.
Proof.
  intros line. repeat split. vm_compute. intros H.
  apply Nat.leb_le in H. discriminate.
Qed.

End Decoder.

(** ** Decoding failures *)

Section DecodingFailures.

(** Text that is not JSON is dropped: the exception is caught. *)
Lemma invalid_json_ignored threshold line text st :
  utf8_decode line = Ok text ->
  json_loads text = Raise JSONDecodeError ->
  process_line threshold line st = (Ok tt, st).
Proof.
  intros Hd Hj. unfold process_line, try_pass, bind, lift.
  rewrite Hd, Hj. reflexivity.
Qed.

(** A message without the field [m] is dropped. *)
Lemma missing_kind_ignored threshold line d st :
  rbind (utf8_decode line) json_loads = Ok (PDict d) ->
  dict_get d (str_of_string "m") = None ->
  process_line threshold line st = (Ok tt, st).
Proof.
  intros Hline Hm. unfold process_line, try_pass, bind, lift.
  destruct (utf8_decode line) as [text|e]; [|discriminate].
  simpl in Hline. rewrite Hline.
  unfold handle_message, bind, lift, getitem_str. rewrite Hm. reflexivity.
Qed.

(** A message of another kind is dropped. *)
Lemma other_kind_ignored threshold line d m st :
  rbind (utf8_decode line) json_loads = Ok (PDict d) ->
  dict_get d (str_of_string "m") = Some m ->
  py_eq_int m 0 = false ->
  process_line threshold line st = (Ok tt, st).
Proof.
  intros Hline Hm Hm0. unfold process_line, try_pass, bind, lift.
  destruct (utf8_decode line) as [text|e]; [|discriminate].
  simpl in Hline. rewrite Hline.
  unfold handle_message, bind, lift, getitem_str. rewrite Hm, Hm0. reflexivity.
Qed.

(** A message of kind 0 without the field [p] is dropped. *)
Lemma missing_payload_ignored threshold line d m st :
  rbind (utf8_decode line) json_loads = Ok (PDict d) ->
  dict_get d (str_of_string "m") = Some m ->
  py_eq_int m 0 = true ->
  dict_get d (str_of_string "p") = None ->
  process_line threshold line st = (Ok tt, st).
Proof.
  intros Hline Hm Hm0 Hp. unfold process_line, try_pass, bind, lift.
  destruct (utf8_decode line) as [text|e]; [|discriminate].
  simpl in Hline. rewrite Hline.
  unfold handle_message, bind, lift, getitem_str. rewrite Hm, Hm0, Hp.
  reflexivity.
Qed.

(** An entry that fails after a well-formed one: the reading of the
    first is handled, then the [IndexError] of the second is caught. *)
Lemma reading_before_malformed_entry :
  process_line 5 (json_bytes "{'m':0,'p':[[63,[5,1]],[]]}") initial_state
  = (Ok tt, {| recv_buf := []; is_pressed := true;
               events := [Display (PInt 5); Click] |}).
Proof. reflexivity. Qed.

(** C1 fails on the code.  The [except] clause of the decoder names
    [JSONDecodeError], [KeyError] and [IndexError] only.  A line that
    is not UTF-8 raises [UnicodeDecodeError], and a message that is
    not an object, a payload that is not iterable and a value that is
    not subscriptable raise [TypeError]: these leave the decoder, and
    monitor_device ends with them, whatever chunks would follow. *)
Theorem undecodable_line_ends_loop threshold rest st :
  process_line threshold [xff] st = (Raise UnicodeDecodeError, st)
  /\ process_line threshold (json_bytes "[1]") st = (Raise TypeError, st)
  /\ process_line threshold (json_bytes "{'m':0,'p':5}") st
     = (Raise TypeError, st)
  /\ process_line threshold (json_bytes "{'m':0,'p':[[63,5]]}") st
     = (Raise TypeError, st)
  /\ monitor_device threshold ([xff; CR] :: rest)
     = (Some UnicodeDecodeError,
        {| recv_buf := [xff; CR]; is_pressed := false; events := [] |})
  /\ monitor_device threshold ((json_bytes "[1]" ++ [CR]) :: rest)
     = (Some TypeError,
        {| recv_buf := json_bytes "[1]" ++ [CR]; is_pressed := false;
           events := [] |}).
Proof. repeat split. Qed.

End DecodingFailures.

(** ** The configuration file *)

Section JsonStrings.
Local Open Scope N_scope.

Lemma hexval_hexdigit d : d < 16 -> hexval (hexdigit d) = Some d.
Proof.
  intros H. unfold hexval, hexdigit.
  destruct (d <? 10) eqn:E.
  - apply N.ltb_lt in E.
    replace ((48 <=? 48 + d) && (48 + d <=? 57)) with true
      by (symmetry; apply andb_true_iff; split; apply N.leb_le; lia).
    f_equal. lia.
  - apply N.ltb_ge in E.
    replace ((48 <=? 87 + d) && (87 + d <=? 57)) with false
      by (symmetry; apply andb_false_iff; right; apply N.leb_gt; lia).
    replace ((97 <=? 87 + d) && (87 + d <=? 102)) with true
      by (symmetry; apply andb_true_iff; split; apply N.leb_le; lia).
    f_equal. lia.
Qed.

Lemma hex4_escape n :
  n < 0x10000 ->
  hex4 (hexdigit (n / 4096)) (hexdigit ((n / 256) mod 16))
       (hexdigit ((n / 16) mod 16)) (hexdigit (n mod 16)) = Some n.
Proof.
  intros H. unfold hex4.
  rewrite !hexval_hexdigit;
    try (apply N.mod_lt; discriminate);
    try (apply N.Div0.div_lt_upper_bound; exact H).
  f_equal. clear H. 
  assert (E1 : n / 256 = n / 16 / 16) by (rewrite N.Div0.div_div; reflexivity).
  assert (E2 : n / 4096 = n / 16 / 16 / 16) by (rewrite !N.Div0.div_div; reflexivity).
  rewrite E2, E1.
  pose proof (N.div_mod n 16 ltac:(discriminate)).
  pose proof (N.div_mod (n / 16) 16 ltac:(discriminate)).
  pose proof (N.div_mod (n / 16 / 16) 16 ltac:(discriminate)).
  lia.
Qed.

Lemma lor_disjoint a b n : b < 2 ^ n -> N.lor (a * 2 ^ n) b = a * 2 ^ n + b.
Proof.
  intros Hb.
  assert (Hland : N.land (a * 2 ^ n) b = 0).
  { apply N.bits_inj. intros i. rewrite N.land_spec, N.bits_0.
    destruct (N.lt_ge_cases i n) as [Hi|Hi].
    - rewrite N.mul_pow2_bits_low by assumption. reflexivity.
    - replace (N.testbit b i) with false; [apply andb_false_r|].
      symmetry. destruct (N.eq_dec b 0) as [->|Hb0]; [apply N.bits_0|].
      apply N.bits_above_log2. apply N.lt_le_trans with n; [|assumption].
      apply N.log2_lt_pow2; [lia|assumption]. }
  rewrite <- N.lxor_lor by assumption.
  symmetry. apply N.add_nocarry_lxor. assumption.
Qed.

Lemma surrogate_high v :
  v < 0x100000 ->
  N.lor 0xD800 (N.land (N.shiftr v 10) 0x3FF) = 0xD800 + v / 1024.
Proof.
  intros Hv.
  change 0x3FF with (N.ones 10). rewrite N.land_ones, N.shiftr_div_pow2.
  change (2 ^ 10) with 1024.
  assert (v / 1024 < 1024) by (apply N.Div0.div_lt_upper_bound; exact Hv).
  rewrite N.mod_small by assumption.
  apply (lor_disjoint 54 (v / 1024) 10). assumption.
Qed.

Lemma surrogate_low v :
  N.lor 0xDC00 (N.land v 0x3FF) = 0xDC00 + v mod 1024.
Proof.
  change 0x3FF with (N.ones 10). rewrite N.land_ones.
  change (2 ^ 10) with 1024.
  apply (lor_disjoint 55 (v mod 1024) 10).
  apply N.mod_lt. discriminate.
Qed.

Lemma join_split_surrogates v :
  join_surrogates (0xD800 + v / 1024) (0xDC00 + v mod 1024) = 0x10000 + v.
Proof.
  unfold join_surrogates.
  rewrite (N.add_comm 0xD800), (N.add_comm 0xDC00), !N.add_sub.
  rewrite N.shiftl_mul_pow2.
  rewrite lor_disjoint by (apply N.mod_lt; discriminate).
  change (2 ^ 10) with 1024.
  rewrite (N.mul_comm (v / 1024)), <- N.div_mod by discriminate.
  reflexivity.
Qed.

Lemma scanstring_u h1 h2 h3 h4 uni t :
  hex4 h1 h2 h3 h4 = Some uni ->
  (is_high_surrogate uni = true -> no_low_escape t = true) ->
  scanstring (BACKSLASH :: 117 :: h1 :: h2 :: h3 :: h4 :: t) =
  cons_str uni (scanstring t).
Proof.
  intros Hh Hn.
  change (scanstring (BACKSLASH :: 117 :: h1 :: h2 :: h3 :: h4 :: t))
    with (match hex4 h1 h2 h3 h4 with
          | None => Raise JSONDecodeError
          | Some uni =>
              if is_high_surrogate uni then
                match t with
                | b :: u :: s4 =>
                    if (b =? BACKSLASH) && (u =? 117) then
                      match s4 with
                      | k1 :: k2 :: k3 :: k4 :: s5 =>
                          match hex4 k1 k2 k3 k4 with
                          | None => Raise JSONDecodeError
                          | Some uni2 =>
                              if is_low_surrogate uni2 then
                                cons_str (join_surrogates uni uni2)
                                         (scanstring s5)
                              else cons_str uni (scanstring t)
                          end
                      | _ => Raise JSONDecodeError
                      end
                    else cons_str uni (scanstring t)
                | _ => cons_str uni (scanstring t)
                end
              else cons_str uni (scanstring t)
          end).
  rewrite Hh. destruct (is_high_surrogate uni); [|reflexivity].
  specialize (Hn eq_refl). unfold no_low_escape in Hn.
  destruct t as [|b [|u s4]]; try reflexivity.
  destruct ((b =? BACKSLASH) && (u =? 117)); [|reflexivity].
  destruct s4 as [|k1 [|k2 [|k3 [|k4 s5]]]]; try discriminate.
  destruct (hex4 k1 k2 k3 k4) as [uni2|]; [|discriminate].
  destruct (is_low_surrogate uni2); [discriminate|reflexivity].
Qed.

Lemma scanstring_plain c t :
  (c =? QUOTE) = false -> (c =? BACKSLASH) = false -> (c <? 0x20) = false ->
  scanstring (c :: t) = cons_str c (scanstring t).
Proof. intros Hq Hb Hc. simpl. rewrite Hq, Hb, Hc. reflexivity. Qed.

Lemma scanstring_short e c t :
  (e =? 117) = false -> unescape e = Some c ->
  scanstring (BACKSLASH :: e :: t) = cons_str c (scanstring t).
Proof. intros He Hu. simpl. rewrite He, Hu. reflexivity. Qed.

Lemma escape_u_app n t :
  escape_u n ++ t =
  BACKSLASH :: 117 :: hexdigit (n / 4096) :: hexdigit ((n / 256) mod 16)
    :: hexdigit ((n / 16) mod 16) :: hexdigit (n mod 16) :: t.
Proof. reflexivity. Qed.

Lemma no_low_escape_u n t :
  n < 0x10000 -> is_low_surrogate n = false ->
  no_low_escape (escape_u n ++ t) = true.
Proof.
  intros Hn Hl. rewrite escape_u_app. unfold no_low_escape.
  rewrite !N.eqb_refl. simpl andb. cbv iota.
  rewrite (hex4_escape n Hn), Hl. reflexivity.
Qed.

(** One character and its escape. *)
Lemma scanstring_escape_char c t :
  c <= 0x10FFFF ->
  (is_high_surrogate c = true -> no_low_escape t = true) ->
  scanstring (escape_char c ++ t) = cons_str c (scanstring t).
Proof.
  intros Hc Hn. unfold escape_char.
  destruct (c =? QUOTE) eqn:E1;
    [apply N.eqb_eq in E1; subst c; apply scanstring_short; reflexivity|].
  destruct (c =? BACKSLASH) eqn:E2;
    [apply N.eqb_eq in E2; subst c; apply scanstring_short; reflexivity|].
  destruct (c =? 10) eqn:E3;
    [apply N.eqb_eq in E3; subst c; apply scanstring_short; reflexivity|].
  destruct (c =? 13) eqn:E4;
    [apply N.eqb_eq in E4; subst c; apply scanstring_short; reflexivity|].
  destruct (c =? 9) eqn:E5;
    [apply N.eqb_eq in E5; subst c; apply scanstring_short; reflexivity|].
  destruct (c =? 12) eqn:E6;
    [apply N.eqb_eq in E6; subst c; apply scanstring_short; reflexivity|].
  destruct (c =? 8) eqn:E7;
    [apply N.eqb_eq in E7; subst c; apply scanstring_short; reflexivity|].
  destruct ((32 <=? c) && (c <=? 126)) eqn:E8.
  - apply andb_true_iff in E8 as [Hlo _]. apply N.leb_le in Hlo.
    apply scanstring_plain; try assumption. apply N.ltb_ge. exact Hlo.
  - destruct (c <? 0x10000) eqn:E9.
    + apply N.ltb_lt in E9. rewrite escape_u_app.
      apply scanstring_u; [apply hex4_escape; exact E9|exact Hn].
    + apply N.ltb_ge in E9. cbv zeta.
      assert (Hv : c - 0x10000 < 0x100000) by lia.
      rewrite (surrogate_high _ Hv), surrogate_low.
      assert (Ec : c = 0x10000 + (c - 0x10000)) by lia.
      remember (c - 0x10000) as v eqn:Ev. clear Ev.
      assert (Hd : v / 1024 < 1024)
        by (apply N.Div0.div_lt_upper_bound; exact Hv).
      assert (Hm : v mod 1024 < 1024) by (apply N.mod_lt; discriminate).
      rewrite <- app_assoc, escape_u_app, escape_u_app.
      change (scanstring
                (BACKSLASH :: 117 :: ?h1 :: ?h2 :: ?h3 :: ?h4
                 :: BACKSLASH :: 117 :: ?k1 :: ?k2 :: ?k3 :: ?k4 :: t))
        with (match hex4 h1 h2 h3 h4 with
              | None => Raise JSONDecodeError
              | Some uni =>
                  if is_high_surrogate uni then
                    if (BACKSLASH =? BACKSLASH) && (117 =? 117) then
                      match hex4 k1 k2 k3 k4 with
                      | None => Raise JSONDecodeError
                      | Some uni2 =>
                          if is_low_surrogate uni2 then
                            cons_str (join_surrogates uni uni2) (scanstring t)
                          else cons_str uni
                                 (scanstring
                                    (BACKSLASH :: 117 :: k1 :: k2 :: k3 :: k4 :: t))
                      end
                    else cons_str uni
                           (scanstring
                              (BACKSLASH :: 117 :: k1 :: k2 :: k3 :: k4 :: t))
                  else cons_str uni
                         (scanstring
                            (BACKSLASH :: 117 :: k1 :: k2 :: k3 :: k4 :: t))
              end).
      rewrite !hex4_escape
        by (clear - Hd Hm; generalize dependent (v / 1024);
            generalize dependent (v mod 1024); intros; lia).
      replace (is_high_surrogate (0xD800 + v / 1024)) with true.
      2:{ symmetry; apply andb_true_iff; clear - Hd.
          generalize dependent (v / 1024). intros d Hd.
          split; apply N.leb_le; lia. }
      replace (is_low_surrogate (0xDC00 + v mod 1024)) with true.
      2:{ symmetry; apply andb_true_iff; clear - Hm.
          generalize dependent (v mod 1024). intros m Hm.
          split; apply N.leb_le; lia. }
      simpl andb. cbv iota.
      rewrite join_split_surrogates, <- Ec. reflexivity.
Qed.

Lemma no_low_escape_plain c t :
  (c =? BACKSLASH) = false -> no_low_escape (c :: t) = true.
Proof.
  intros Hc. unfold no_low_escape. destruct t as [|u t']; [reflexivity|].
  rewrite Hc. reflexivity.
Qed.

Lemma no_low_escape_escape_char c t :
  c <= 0x10FFFF -> is_low_surrogate c = false ->
  no_low_escape (escape_char c ++ t) = true.
Proof.
  intros Hc Hl. unfold escape_char.
  destruct (c =? QUOTE); [reflexivity|].
  destruct (c =? BACKSLASH) eqn:E2; [reflexivity|].
  destruct (c =? 10); [reflexivity|].
  destruct (c =? 13); [reflexivity|].
  destruct (c =? 9); [reflexivity|].
  destruct (c =? 12); [reflexivity|].
  destruct (c =? 8); [reflexivity|].
  destruct ((32 <=? c) && (c <=? 126)); [apply no_low_escape_plain; exact E2|].
  destruct (c <? 0x10000) eqn:E9.
  - apply N.ltb_lt in E9. apply no_low_escape_u; assumption.
  - apply N.ltb_ge in E9. cbv zeta.
    assert (Hv : c - 0x10000 < 0x100000) by lia.
    rewrite (surrogate_high _ Hv). rewrite <- app_assoc.
    assert (Hd : (c - 0x10000) / 1024 < 1024)
      by (apply N.Div0.div_lt_upper_bound; exact Hv).
    generalize dependent ((c - 0x10000) / 1024). intros d Hd.
    apply no_low_escape_u; [lia|].
    apply andb_false_iff. left. apply N.leb_gt. lia.
Qed.

(** [scanstring] reads back what [encode_basestring_ascii] wrote. *)
Lemma scanstring_flat_map_escape s : forall rest,
  is_str s = true -> surrogate_pair_free s = true ->
  scanstring (flat_map escape_char s ++ QUOTE :: rest) = Ok (s, rest).
Proof.
  induction s as [|c s IH]; intros rest Hs Hp; [reflexivity|].
  simpl in Hs. apply andb_true_iff in Hs as [Hc Hs]. apply N.leb_le in Hc.
  simpl in Hp. apply andb_true_iff in Hp as [Hcc Hp].
  simpl flat_map. rewrite <- app_assoc.
  rewrite scanstring_escape_char; [rewrite IH by assumption; reflexivity|exact Hc|].
  intros Hh. destruct s as [|c' s']; [apply no_low_escape_plain; reflexivity|].
  simpl flat_map. rewrite <- app_assoc.
  simpl in Hs. apply andb_true_iff in Hs as [Hc' _]. apply N.leb_le in Hc'.
  apply no_low_escape_escape_char; [exact Hc'|].
  rewrite Hh in Hcc. simpl in Hcc. apply negb_true_iff in Hcc. exact Hcc.
Qed.

End JsonStrings.

Section JsonNumbers.
Local Open Scope N_scope.

Lemma take_digits_uint_digits u rest :
  ends_number rest = true ->
  take_digits (uint_digits u ++ rest) = (u, rest).
Proof.
  intros Hr. induction u as [|u IH|u IH|u IH|u IH|u IH|u IH|u IH|u IH|u IH|u IH];
    try (simpl; rewrite IH; reflexivity).
  simpl. destruct rest as [|c rest']; [reflexivity|].
  simpl in Hr. simpl. destruct (digit_of c); [discriminate|reflexivity].
Qed.

Lemma nzhead_head u : nzhead u = Nil \/ head_nonzero (nzhead u) = true.
Proof.
  induction u; simpl; auto.
Qed.

Lemma to_uint_head_nonzero p : head_nonzero (Pos.to_uint p) = true.
Proof.
  pose proof (DecimalPos.Unsigned.to_of (Pos.to_uint p)) as H.
  rewrite DecimalPos.Unsigned.of_to in H. simpl in H.
  pose proof (DecimalPos.Unsigned.to_uint_nonzero p) as Hz.
  unfold unorm in H.
  destruct (nzhead_head (Pos.to_uint p)) as [Hn|Hn].
  - rewrite Hn in H. congruence.
  - destruct (nzhead (Pos.to_uint p)) eqn:E; try discriminate;
      rewrite H; reflexivity.
Qed.

Lemma take_frac_none rest : ends_number rest = true -> take_frac rest = (Nil, rest).
Proof.
  destruct rest as [|c rest']; [reflexivity|]. simpl.
  destruct (digit_of c); [discriminate|].
  destruct (c =? 46); [discriminate|reflexivity].
Qed.

Lemma take_exp_none rest : ends_number rest = true -> take_exp rest = (None, rest).
Proof.
  destruct rest as [|c rest']; [reflexivity|]. simpl.
  destruct (digit_of c); [discriminate|].
  destruct (c =? 46); [discriminate|].
  destruct (c =? 101); [discriminate|].
  destruct (c =? 69); [discriminate|reflexivity].
Qed.

Lemma take_integer_uint_digits u rest :
  head_nonzero u = true -> ends_number rest = true ->
  take_integer (uint_digits u ++ rest) = Some (u, rest).
Proof.
  intros Hu Hr. pose proof (take_digits_uint_digits u rest Hr) as Ht.
  destruct u; try discriminate; simpl uint_digits in *; simpl app in *;
    unfold take_integer; rewrite Ht; reflexivity.
Qed.

(** [match_number] reads back what [int.__repr__] wrote. *)
Lemma match_number_encode_int z rest :
  ends_number rest = true ->
  match_number (encode_int z ++ rest) = Some (PInt z, rest).
Proof.
  intros Hr.
  pose proof (DecimalZ.of_to z) as Hz.
  destruct z as [|p|p]; simpl Z.to_int in Hz.
  - unfold match_number. simpl.
    rewrite (take_frac_none _ Hr), (take_exp_none _ Hr). reflexivity.
  - pose proof (to_uint_head_nonzero p) as Hh.
    change (encode_int (Z.pos p)) with (uint_digits (Pos.to_uint p)).
    unfold match_number.
    assert (Hs : take_sign (uint_digits (Pos.to_uint p) ++ rest)
                 = (false, uint_digits (Pos.to_uint p) ++ rest)).
    { destruct (Pos.to_uint p); try discriminate; reflexivity. }
    rewrite Hs. rewrite (take_integer_uint_digits _ _ Hh Hr).
    rewrite (take_frac_none _ Hr), (take_exp_none _ Hr).
    unfold number_value. simpl is_nil. cbv iota. rewrite Hz. reflexivity.
  - pose proof (to_uint_head_nonzero p) as Hh.
    change (encode_int (Z.neg p)) with (45 :: uint_digits (Pos.to_uint p)).
    unfold match_number. simpl app.
    change (take_sign (45 :: ?t)) with (true, t). cbv beta iota.
    rewrite (take_integer_uint_digits _ _ Hh Hr).
    rewrite (take_frac_none _ Hr), (take_exp_none _ Hr).
    unfold number_value. simpl is_nil. cbv iota. rewrite Hz. reflexivity.
Qed.

(** An int literal is no other kind of value. *)
Lemma scan_once_encode_int fuel z rest :
  ends_number rest = true ->
  scan_once (S fuel) (encode_int z ++ rest) = Ok (PInt z, rest).
Proof.
  intros Hr.
  pose proof (match_number_encode_int z rest Hr) as Hm.
  assert (Hc : exists c t, encode_int z ++ rest = c :: t
                           /\ ((c =? 45) || (48 <=? c) && (c <=? 57)) = true).
  { unfold encode_int. destruct (Z.to_int z) as [u|u] eqn:E.
    - assert (Hu : u <> Nil).
      { destruct z; simpl in E; inversion E; try discriminate;
          apply DecimalPos.Unsigned.to_uint_nonnil. }
      destruct u; try congruence; simpl; eexists; eexists; split;
        reflexivity.
    - simpl. eexists; eexists; split; reflexivity. }
  destruct Hc as (c & t & Ec & Hc). rewrite Ec in *.
  assert (Hq : (c =? QUOTE) = false /\ (c =? 123) = false /\ (c =? 91) = false
               /\ (c =? 110) = false /\ (c =? 116) = false /\ (c =? 102) = false).
  { apply orb_true_iff in Hc as [Hc|Hc].
    - apply N.eqb_eq in Hc. subst c. repeat split.
    - apply andb_true_iff in Hc as [H1 H2].
      apply N.leb_le in H1. apply N.leb_le in H2.
      repeat split; apply N.eqb_neq; unfold QUOTE; lia. }
  destruct Hq as (Hq1 & Hq2 & Hq3 & Hq4 & Hq5 & Hq6).
  cbn [scan_once]. rewrite Hq1, Hq2, Hq3.
  change (str_of_string "null") with [110; 117; 108; 108].
  change (str_of_string "true") with [116; 114; 117; 101].
  change (str_of_string "false") with [102; 97; 108; 115; 101].
  cbn [strip_prefix].
  rewrite (N.eqb_sym 110), (N.eqb_sym 116), (N.eqb_sym 102), Hq4, Hq5, Hq6.
  rewrite Hm. reflexivity.
Qed.
End JsonNumbers.

Section ConfigFile.
Local Open Scope N_scope.

Lemma dump_config_shape serial z :
  dump_config serial z =
  123 :: 10 :: 32 :: 32 :: 32 :: 32 :: QUOTE
    :: (flat_map escape_char (str_of_string "serial_number")
        ++ QUOTE :: 58 :: 32 :: QUOTE
        :: (flat_map escape_char serial
            ++ QUOTE :: 44 :: 10 :: 32 :: 32 :: 32 :: 32 :: QUOTE
            :: (flat_map escape_char (str_of_string "trigger_threshold")
                ++ QUOTE :: 58 :: 32 :: (encode_int z ++ [10; 125])))).
Proof.
  unfold dump_config, encode_basestring_ascii, newline_indent.
  change (str_of_string "{") with [123].
  change (str_of_string "    ") with [32; 32; 32; 32].
  change (str_of_string ": ") with [58; 32].
  change (str_of_string ",") with [44].
  change (str_of_string "}") with [125].
  repeat (rewrite <- ?app_assoc; simpl app). reflexivity.
Qed.

Lemma skip_ws_encode_int z t : skip_ws (encode_int z ++ t) = encode_int z ++ t.
Proof.
  destruct z as [|p|p]; try reflexivity.
  change (encode_int (Z.pos p)) with (uint_digits (Pos.to_uint p)).
  pose proof (DecimalPos.Unsigned.to_uint_nonnil p) as Hn.
  destruct (Pos.to_uint p); try congruence; reflexivity.
Qed.

Ltac scan_step :=
  cbn [scan_once scan_pairs skip_ws is_ws N.eqb Pos.eqb orb rbind QUOTE].

Lemma scan_dump_config fuel serial z :
  is_str serial = true -> surrogate_pair_free serial = true ->
  scan_once (S (S (S (S fuel)))) (dump_config serial z) =
  Ok (PDict [(str_of_string "serial_number", PStr serial);
             (str_of_string "trigger_threshold", PInt z)], []).
Proof.
  intros Hs Hp. rewrite dump_config_shape.
  remember (S fuel) as f3 eqn:E3.
  remember (S f3) as f2 eqn:E2.
  remember (S f2) as f1 eqn:E1.
  scan_step. subst f1. scan_step.
  rewrite scanstring_flat_map_escape by reflexivity.
  scan_step. subst f2. scan_step.
  rewrite scanstring_flat_map_escape by assumption.
  scan_step.
  rewrite scanstring_flat_map_escape by reflexivity.
  scan_step.
  rewrite skip_ws_encode_int. subst f3.
  rewrite scan_once_encode_int by reflexivity.
  scan_step. reflexivity.
Qed.

Lemma load_dump_config serial z :
  is_str serial = true -> surrogate_pair_free serial = true ->
  json_loads (dump_config serial z) =
  Ok (PDict [(str_of_string "serial_number", PStr serial);
             (str_of_string "trigger_threshold", PInt z)]).
Proof.
  intros Hs Hp. unfold json_loads.
  assert (Hf : exists fuel,
             (2 * length (dump_config serial z) = S (S (S fuel)))%nat).
  { rewrite dump_config_shape. simpl length.
    match goal with
    | |- exists fuel, (2 * S (S (S ?n)) = _)%nat => exists (3 + 2 * n)%nat; lia
    end. }
  destruct Hf as [fuel Hf]. rewrite Hf.
  assert (Hw : skip_ws (dump_config serial z) = dump_config serial z)
    by (rewrite dump_config_shape; reflexivity).
  rewrite Hw, (scan_dump_config _ _ _ Hs Hp).
  rewrite dump_config_shape. reflexivity.
Qed.

(** C8, as amended.  For every serial number in which no high
    surrogate is directly followed by a low surrogate, so for every
    string of Unicode scalar values, and for every int threshold,
    [load_config] after [save_config] returns the record with these
    two values; after [save_config("ABC123", 3)] it returns
    [serial_number == "ABC123"] and [trigger_threshold == 3]. *)
Theorem config_round_trip serial threshold file :
  is_str serial = true -> surrogate_pair_free serial = true ->
  load_config (save_config serial threshold file) =
    Ok (PDict [(str_of_string "serial_number", PStr serial);
               (str_of_string "trigger_threshold", PInt threshold)])
  /\ load_config (save_config (str_of_string "ABC123") 3 file) =
     Ok (PDict [(str_of_string "serial_number", PStr (str_of_string "ABC123"));
                (str_of_string "trigger_threshold", PInt 3)]).
Proof.
  intros Hs Hp. split.
  - apply load_dump_config; assumption.
  - apply load_dump_config; reflexivity.
Qed.

Lemma config_round_trip_witness :
  load_config (save_config [233; 0x1F600; 0xD800; 34; 0xDC00] (-42) None) =
    Ok (PDict [(str_of_string "serial_number",
                PStr [233; 0x1F600; 0xD800; 34; 0xDC00]);
               (str_of_string "trigger_threshold", PInt (-42))])
  /\ load_config (save_config (str_of_string "ABC123") 3 None) =
     Ok (PDict [(str_of_string "serial_number", PStr (str_of_string "ABC123"));
                (str_of_string "trigger_threshold", PInt 3)]).
Proof.
  apply (config_round_trip [233; 0x1F600; 0xD800; 34; 0xDC00] (-42) None);
    reflexivity.
Defined.

(** C8 as stated fails: a serial number made of a high and a low
    surrogate comes back as the one code point they encode. *)
Lemma surrogate_pair_not_round_tripped :
  load_config (save_config [0xD800; 0xDC00] 3 None) =
    Ok (PDict [(str_of_string "serial_number", PStr [0x10000]);
               (str_of_string "trigger_threshold", PInt 3)])
  /\ load_config (save_config [0xD800; 0xDC00] 3 None) <>
     Ok (PDict [(str_of_string "serial_number", PStr [0xD800; 0xDC00]);
                (str_of_string "trigger_threshold", PInt 3)]).
Proof.
  split; [reflexivity|].
  intros H. vm_compute in H. discriminate H.
Qed.

End ConfigFile.

(** ** Device selection *)

Section SelectDevice.

Lemma in_range_nth (comports : list port_info) choice :
  (1 <=? choice) && (choice <=? Z.of_nat (length comports)) = true ->
  exists port, nth_error comports (Z.to_nat (choice - 1)) = Some port.
Proof.
  intros H. apply andb_true_iff in H as [H1 H2].
  apply Z.leb_le in H1. apply Z.leb_le in H2.
  destruct (nth_error comports (Z.to_nat (choice - 1))) as [port|] eqn:E;
    [exists port; reflexivity|].
  apply nth_error_None in E. lia.
Qed.





Lemma ask_index_sound comports : forall choices,
  match fst (ask_index comports choices) with
  | Returns (Some d, s) =>
      exists port, In port comports /\ device port = d /\ serial_number port = s
  | Returns (None, _) => False
  | Raises _ => False
  | Blocks => forallb (out_of_range (length comports)) choices = true
  end.
Proof.
  induction choices as [|choice rest IH]; [reflexivity|].
  cbn [ask_index].
  destruct ((1 <=? choice) && (choice <=? Z.of_nat (length comports))) eqn:Hr.
  - destruct (in_range_nth comports choice Hr) as [port Hp]. rewrite Hp.
    simpl. exists port. split; [|split; reflexivity].
    eapply nth_error_In. exact Hp.
  - destruct (ask_index comports rest) as [r out]. simpl in *.
    destruct r as [[[d|] s]| |]; try exact IH.
    unfold out_of_range at 1. rewrite Hr. exact IH.
Qed.






End SelectDevice.

(** ** The session setup *)

Section Main.

Lemma select_device_sound comports choices d s out :
  select_device comports choices = (Returns (Some d, s), out) ->
  exists port, In port comports /\ device port = d /\ serial_number port = s.
Proof.
  intros H. unfold select_device in H.
  destruct comports as [|p0 ps]; [discriminate|]. cbn [is_empty] in H.
  pose proof (ask_index_sound (p0 :: ps) choices) as Hs.
  destruct (ask_index (p0 :: ps) choices) as [r o].
  inversion H; subst. exact Hs.
Qed.





(** Lines 86-104 for a configuration that is a [dict]. *)
Lemma choose_device_dict config scan confirm choices :
  choose_device (PDict config) scan confirm choices =
  match dict_get config (str_of_string "serial_number") with
  | Some saved =>
      if py_truthy saved then
        if confirm then
          match find (serial_matches saved) (scan 0%nat) with
          | Some port =>
              (Returns (Some (device port), serial_number port),
               [FoundSavedMsg (device port)])
          | None =>
              let '(r, out) := select_device (scan 1%nat) choices in
              (r, SavedNotFoundMsg :: out)
          end
        else select_device (scan 0%nat) choices
      else select_device (scan 0%nat) choices
  | None => select_device (scan 0%nat) choices
  end.
Proof.
  unfold choose_device, py_in, getitem_str.
  destruct (dict_get config (str_of_string "serial_number")); reflexivity.
Qed.

(** For a configuration that is no [dict], line 86 raises a
    [TypeError] or sends to select_device. *)
Lemma choose_device_other config scan confirm choices :
  (forall d, config <> PDict d) ->
  choose_device config scan confirm choices = (Raises TypeError, [])
  \/ choose_device config scan confirm choices
     = select_device (scan 0%nat) choices.
Proof.
  intros Hd. unfold choose_device.
  destruct config as [| | | | s|l|d]; try (left; reflexivity).
  - unfold py_in. destruct (is_substring _ s); [left|right]; reflexivity.
  - unfold py_in. destruct (existsb _ l); [left|right]; reflexivity.
  - exfalso. apply (Hd d). reflexivity.
Qed.

Ltac other_config H :=
  match type of H with
  | choose_device ?c ?scan ?confirm ?choices = _ =>
      let Hn := fresh "Hn" in
      let E := fresh "E" in
      assert (Hn : forall d0, c <> PDict d0) by (intros d0; discriminate);
      destruct (choose_device_other c scan confirm choices Hn) as [E|E];
      rewrite E in H
  end.

Lemma choose_device_sound config scan confirm choices d s out :
  choose_device config scan confirm choices = (Returns (Some d, s), out) ->
  exists k port,
    In port (scan k) /\ device port = d /\ serial_number port = s.
Proof.
  intros H.
  assert (Hsel : forall k o,
             select_device (scan k) choices = (Returns (Some d, s), o) ->
             exists k port,
               In port (scan k) /\ device port = d /\ serial_number port = s).
  { intros k o Hk. exists k. eapply select_device_sound. exact Hk. }
  destruct config as [| | | | s0|l|config];
    try (other_config H; [discriminate|eauto]).
  rewrite choose_device_dict in H.
  destruct (dict_get config (str_of_string "serial_number")) as [saved|];
    [|eauto].
  destruct (py_truthy saved); [|eauto].
  destruct confirm; [|eauto].
  destruct (find (serial_matches saved) (scan 0%nat)) as [port|] eqn:E.
  - inversion H; subst. exists 0%nat, port.
    apply find_some in E. tauto.
  - destruct (select_device (scan 1%nat) choices) as [r o] eqn:E1.
    inversion H; subst. eauto.
Qed.



(** What a run that reaches monitor_device went through. *)
Lemma main_monitors file scan confirm choices answer port v :
  run_monitor (snd (main file scan confirm choices answer)) = Some (port, v) ->
  exists config k p serial out,
    load_config file = Ok (PDict config)
    /\ In p (scan k) /\ device p = port /\ port <> []
    /\ serial_number p = Some serial /\ serial <> []
    /\ v = IntPrompt_ask
             (config_get config (str_of_string "trigger_threshold") (PInt 1))
             answer
    /\ main file scan confirm choices answer =
       (Returns tt,
        {| run_console := out; run_file := Some (dump_record serial v);
           run_monitor := Some (port, v) |}).
Proof.
  unfold main.
  destruct (load_config file) as [config|e0] eqn:Hl; [|discriminate].
  destruct (choose_device config scan confirm choices) as [r out] eqn:Hc.
  destruct r as [[spike_port chosen_serial]|e0|]; try discriminate.
  destruct spike_port as [[|p d]|]; try discriminate.
  destruct chosen_serial as [[|c s]|]; try discriminate.
  unfold configure_threshold, py_get.
  destruct config as [| | | | | |config]; try discriminate.
  cbn [rbind snd run_monitor]. intros H. inversion H; subst.
  destruct (choose_device_sound _ _ _ _ _ _ _ Hc) as (k & q & Hin & Hd & Hs).
  exists config, k, q, (c :: s),
    (TitleRule :: out ++ [ThresholdHelp; ConfigSavedMsg]).
  repeat split; try assumption; try discriminate.
Qed.


End Main.

(** ** What load_config reads back *)

Section ReadBack.
Local Open Scope N_scope.

Lemma escape_char_surrogate c :
  0xD800 <= c -> c <= 0xDFFF -> escape_char c = escape_u c.
Proof.
  intros Hlo Hhi. unfold escape_char, QUOTE, BACKSLASH.
  repeat match goal with
         | |- context [?a =? ?b] =>
             replace (a =? b) with false by (symmetry; apply N.eqb_neq; lia)
         end.
  replace (32 <=? c) with true by (symmetry; apply N.leb_le; lia).
  replace (c <=? 126) with false by (symmetry; apply N.leb_gt; lia).
  replace (c <? 0x10000) with true by (symmetry; apply N.ltb_lt; lia).
  reflexivity.
Qed.

Lemma scanstring_pair hi lo t :
  is_high_surrogate hi = true -> is_low_surrogate lo = true ->
  scanstring (escape_u hi ++ escape_u lo ++ t) =
  cons_str (join_surrogates hi lo) (scanstring t).
Proof.
  intros Hh Hl.
  assert (Hhi : hi < 0x10000).
  { unfold is_high_surrogate in Hh. apply andb_true_iff in Hh as [_ H].
    apply N.leb_le in H. lia. }
  assert (Hlo : lo < 0x10000).
  { unfold is_low_surrogate in Hl. apply andb_true_iff in Hl as [_ H].
    apply N.leb_le in H. lia. }
  rewrite escape_u_app, escape_u_app.
  change (scanstring
            (BACKSLASH :: 117 :: ?h1 :: ?h2 :: ?h3 :: ?h4
             :: BACKSLASH :: 117 :: ?k1 :: ?k2 :: ?k3 :: ?k4 :: t))
    with (match hex4 h1 h2 h3 h4 with
          | None => Raise JSONDecodeError
          | Some uni =>
              if is_high_surrogate uni then
                if (BACKSLASH =? BACKSLASH) && (117 =? 117) then
                  match hex4 k1 k2 k3 k4 with
                  | None => Raise JSONDecodeError
                  | Some uni2 =>
                      if is_low_surrogate uni2 then
                        cons_str (join_surrogates uni uni2) (scanstring t)
                      else cons_str uni
                             (scanstring
                                (BACKSLASH :: 117 :: k1 :: k2 :: k3 :: k4 :: t))
                  end
                else cons_str uni
                       (scanstring
                          (BACKSLASH :: 117 :: k1 :: k2 :: k3 :: k4 :: t))
              else cons_str uni
                     (scanstring
                        (BACKSLASH :: 117 :: k1 :: k2 :: k3 :: k4 :: t))
          end).
  rewrite (hex4_escape hi Hhi), (hex4_escape lo Hlo), Hh, Hl. reflexivity.
Qed.

(** The string that comes back, for every string written. *)
Lemma scanstring_flat_map_escape_any n : forall s rest,
  (length s <= n)%nat -> is_str s = true ->
  scanstring (flat_map escape_char s ++ QUOTE :: rest) =
  Ok (join_pairs s, rest).
Proof.
  induction n as [|n IH]; intros s rest Hn Hs.
  - destruct s; [reflexivity|simpl in Hn; lia].
  - destruct s as [|c s']; [reflexivity|].
    simpl in Hn. simpl in Hs. apply andb_true_iff in Hs as [Hc Hs].
    apply N.leb_le in Hc.
    destruct s' as [|c' s''].
    + simpl flat_map. rewrite app_nil_r.
      rewrite scanstring_escape_char;
        [reflexivity|exact Hc|intros _; apply no_low_escape_plain; reflexivity].
    + pose proof Hs as Hs'. simpl in Hs'.
      apply andb_true_iff in Hs' as [Hc' Hs''].
      apply N.leb_le in Hc'.
      change (join_pairs (c :: c' :: s''))
        with (if is_high_surrogate c && is_low_surrogate c'
              then join_surrogates c c' :: join_pairs s''
              else c :: join_pairs (c' :: s'')).
      destruct (is_high_surrogate c && is_low_surrogate c') eqn:E.
      * apply andb_true_iff in E as [Hh Hl].
        assert (Hch : 0xD800 <= c /\ c <= 0xDFFF).
        { unfold is_high_surrogate in Hh. apply andb_true_iff in Hh as [H1 H2].
          apply N.leb_le in H1. apply N.leb_le in H2. lia. }
        assert (Hcl : 0xD800 <= c' /\ c' <= 0xDFFF).
        { unfold is_low_surrogate in Hl. apply andb_true_iff in Hl as [H1 H2].
          apply N.leb_le in H1. apply N.leb_le in H2. lia. }
        cbn [flat_map].
        rewrite (escape_char_surrogate c), (escape_char_surrogate c')
          by apply Hch || apply Hcl.
        rewrite <- !app_assoc. rewrite (scanstring_pair _ _ _ Hh Hl).
        rewrite (IH s'' rest); [reflexivity| simpl in Hn; lia |exact Hs''].
      * change (flat_map escape_char (c :: c' :: s''))
          with (escape_char c ++ flat_map escape_char (c' :: s'')).
        rewrite <- app_assoc.
        rewrite scanstring_escape_char;
          [rewrite (IH (c' :: s'') rest); [reflexivity|lia|exact Hs]
          |exact Hc|].
        intros Hh. rewrite Hh in E. simpl in E.
        cbn [flat_map]. rewrite <- app_assoc.
        apply no_low_escape_escape_char; assumption.
Qed.

Lemma join_pairs_free s : surrogate_pair_free s = true -> join_pairs s = s.
Proof.
  induction s as [|c s IH]; [reflexivity|].
  intros H. simpl in H. apply andb_true_iff in H as [H1 H2].
  destruct s as [|c' s']; [reflexivity|].
  change (join_pairs (c :: c' :: s'))
    with (if is_high_surrogate c && is_low_surrogate c'
          then join_surrogates c c' :: join_pairs s'
          else c :: join_pairs (c' :: s')).
  apply negb_true_iff in H1. rewrite H1, (IH H2). reflexivity.
Qed.

Ltac scan_step :=
  cbn [scan_once scan_pairs skip_ws is_ws N.eqb Pos.eqb orb rbind QUOTE].

Lemma scan_dump_config_any fuel serial z :
  is_str serial = true ->
  scan_once (S (S (S (S fuel)))) (dump_config serial z) =
  Ok (PDict [(str_of_string "serial_number", PStr (join_pairs serial));
             (str_of_string "trigger_threshold", PInt z)], []).
Proof.
  intros Hs. rewrite dump_config_shape.
  remember (S fuel) as f3 eqn:E3.
  remember (S f3) as f2 eqn:E2.
  remember (S f2) as f1 eqn:E1.
  scan_step. subst f1. scan_step.
  rewrite scanstring_flat_map_escape by reflexivity.
  scan_step. subst f2. scan_step.
  rewrite (scanstring_flat_map_escape_any (length serial))
    by (try apply Nat.le_refl; assumption).
  scan_step.
  rewrite scanstring_flat_map_escape by reflexivity.
  scan_step.
  rewrite skip_ws_encode_int. subst f3.
  rewrite scan_once_encode_int by reflexivity.
  scan_step. reflexivity.
Qed.

(** What load_config reads in a file that save_config wrote with an
    int threshold: the threshold as it was, for every serial
    number. *)
Lemma load_dump_config_any serial z :
  is_str serial = true ->
  json_loads (dump_config serial z) =
  Ok (PDict [(str_of_string "serial_number", PStr (join_pairs serial));
             (str_of_string "trigger_threshold", PInt z)]).
Proof.
  intros Hs. unfold json_loads.
  assert (Hf : exists fuel,
             (2 * length (dump_config serial z) = S (S (S fuel)))%nat).
  { rewrite dump_config_shape. simpl length.
    match goal with
    | |- exists fuel, (2 * S (S (S ?n)) = _)%nat => exists (3 + 2 * n)%nat; lia
    end. }
  destruct Hf as [fuel Hf]. rewrite Hf.
  assert (Hw : skip_ws (dump_config serial z) = dump_config serial z)
    by (rewrite dump_config_shape; reflexivity).
  rewrite Hw, (scan_dump_config_any _ _ _ Hs).
  rewrite dump_config_shape. reflexivity.
Qed.

Lemma dump_record_int serial z :
  dump_record serial (PInt z) = dump_config serial z.
Proof.
  unfold dump_record, dump_config, newline_indent. cbn [encode_value].
  unfold newline_indent_at. cbn [repeat Nat.mul Nat.add].
  change (str_of_string "    ") with [32; 32; 32; 32].
  rewrite app_nil_r, <- !app_assoc. reflexivity.
Qed.

End ReadBack.

(** ** The persisted threshold *)

Section Threshold.

(** C10, as amended.  Every config record created by a successful
    session setup, that is by a run of main that reaches
    monitor_device, has as its trigger_threshold what the threshold
    prompt returned, and monitor_device gets the same value: the int
    the user entered, whatever it is, as no range is enforced, or on
    an empty answer the saved trigger_threshold as load_config found
    it, an int or not, and 1 when the configuration has none.  The
    record is written with that value, and for an int load_config
    reads the same int back. *)
Theorem persisted_threshold_is_prompt_answer
        file scan confirm choices answer port threshold :
  run_monitor (snd (main file scan confirm choices answer))
    = Some (port, threshold) ->
  exists config serial,
    load_config file = Ok (PDict config)
    /\ threshold =
       match answer with
       | Some z => PInt z
       | None =>
           match dict_get config (str_of_string "trigger_threshold") with
           | Some saved => saved
           | None => PInt 1
           end
       end
    /\ run_file (snd (main file scan confirm choices answer))
       = Some (dump_record serial threshold)
    /\ forall z, threshold = PInt z ->
         run_file (snd (main file scan confirm choices answer))
           = save_config serial z file
         /\ (is_str serial = true ->
             load_config (run_file (snd (main file scan confirm choices answer)))
             = Ok (PDict [(str_of_string "serial_number",
                           PStr (join_pairs serial));
                          (str_of_string "trigger_threshold", PInt z)])).
Proof.
  intros H.
  destruct (main_monitors _ _ _ _ _ _ _ H)
    as (config & k & p & serial & out & Hl & _ & _ & _ & _ & _ & Hv & Hm).
  exists config, serial. split; [exact Hl|]. split.
  - rewrite Hv. unfold IntPrompt_ask, config_get.
    destruct answer; reflexivity.
  - rewrite Hm. cbn [snd run_file]. split; [reflexivity|].
    intros z Hz. rewrite Hz, dump_record_int. split; [reflexivity|].
    intros Hs. apply load_dump_config_any. exact Hs.
Qed.

Lemma persisted_threshold_is_prompt_answer_witness :
  let lego := {| device := str_of_string "COM4";
                 serial_number := Some (str_of_string "ABC123");
                 description := str_of_string "LEGO Hub" |} in
  let file := Some (json_text "{'trigger_threshold': 7, 'note': [1.5]}") in
  let run := snd (main file (fun _ => [lego]) false [1] None) in
  exists config serial,
    load_config file = Ok (PDict config)
    /\ PInt 7 =
       match @None Z with
       | Some z => PInt z
       | None =>
           match dict_get config (str_of_string "trigger_threshold") with
           | Some saved => saved
           | None => PInt 1
           end
       end
    /\ run_file run = Some (dump_record serial (PInt 7))
    /\ forall z, PInt 7 = PInt z ->
         run_file run = save_config serial z file
         /\ (is_str serial = true ->
             load_config (run_file run)
             = Ok (PDict [(str_of_string "serial_number",
                           PStr (join_pairs serial));
                          (str_of_string "trigger_threshold", PInt z)])).
Proof.
  intros lego file run.
  apply (persisted_threshold_is_prompt_answer file (fun _ => [lego]) false [1]
           None (str_of_string "COM4") (PInt 7)).
  reflexivity.
Defined.

(** C10 as stated fails.  The answer 42 is persisted as it is, and
    on an empty answer so is a saved threshold that is no int: the
    2.5 of a configuration file goes to monitor_device and back into
    the file. *)
Lemma threshold_out_of_range_persisted :
  let lego := {| device := str_of_string "COM4";
                 serial_number := Some (str_of_string "ABC123");
                 description := str_of_string "LEGO Hub" |} in
  let run := snd (main None (fun _ => [lego]) false [1] (Some 42)) in
  let file :=
    Some (json_text "{'serial_number': 'ABC123', 'trigger_threshold': 2.5}") in
  let run' := snd (main file (fun _ => [lego]) true [] None) in
  run_monitor run = Some (str_of_string "COM4", PInt 42)
  /\ load_config (run_file run)
     = Ok (PDict [(str_of_string "serial_number",
                   PStr (str_of_string "ABC123"));
                  (str_of_string "trigger_threshold", PInt 42)])
  /\ ~ (0 <= 42 <= 10)
  /\ run_monitor run' = Some (str_of_string "COM4", PFloat float_2_5)
  /\ load_config (run_file run')
     = Ok (PDict [(str_of_string "serial_number",
                   PStr (str_of_string "ABC123"));
                  (str_of_string "trigger_threshold", PFloat float_2_5)]).
Proof.
  intros lego run file run'.
  split; [reflexivity|]. split; [reflexivity|]. split; [lia|].
  split; reflexivity.
Qed.

End Threshold.

(** ** Runs of the session setup *)

Section MainRuns.











Lemma strip_prefix_first p c t q :
  p = c :: q -> forall d, (c =? d)%N = false -> strip_prefix p (d :: t) = None.
Proof. intros -> d H. simpl. rewrite H. reflexivity. Qed.

Lemma scan_once_no_start fuel c t :
  existsb (N.eqb c)
    [34; 123; 91; 45; 48; 49; 50; 51; 52; 53; 54; 55; 56; 57;
     110; 116; 102; 78; 73]%N = false ->
  scan_once (S fuel) (c :: t) = Raise JSONDecodeError.
Proof.
  intros H. cbn [existsb] in H.
  repeat (apply orb_false_iff in H; destruct H as [?E H]).
  assert (Hd : digit_of c = None).
  { unfold digit_of. rewrite E3, E4, E5, E6, E7, E8, E9, E10, E11, E12.
    reflexivity. }
  assert (Hn : match_number (c :: t) = None).
  { unfold match_number, take_sign, take_integer. rewrite E2, E3.
    cbn [take_digits]. rewrite Hd. reflexivity. }
  cbn [scan_once]. unfold QUOTE. rewrite E, E0, E1, Hn.
  rewrite (strip_prefix_first (str_of_string "null") 110%N t
             (str_of_string "ull") eq_refl c)
    by (rewrite N.eqb_sym; assumption).
  rewrite (strip_prefix_first (str_of_string "true") 116%N t
             (str_of_string "rue") eq_refl c)
    by (rewrite N.eqb_sym; assumption).
  rewrite (strip_prefix_first (str_of_string "false") 102%N t
             (str_of_string "alse") eq_refl c)
    by (rewrite N.eqb_sym; assumption).
  rewrite (strip_prefix_first (str_of_string "NaN") 78%N t
             (str_of_string "aN") eq_refl c)
    by (rewrite N.eqb_sym; assumption).
  rewrite (strip_prefix_first (str_of_string "Infinity") 73%N t
             (str_of_string "nfinity") eq_refl c)
    by (rewrite N.eqb_sym; assumption).
  rewrite (strip_prefix_first (str_of_string "-Infinity") 45%N t
             (str_of_string "Infinity") eq_refl c)
    by (rewrite N.eqb_sym; assumption).
  reflexivity.
Qed.

Lemma json_loads_raise s r (k : pyval * str -> result pyval) :
  r = Raise JSONDecodeError ->
  match s with
  | 0xFEFF%N :: _ => Raise JSONDecodeError
  | _ => rbind r k
  end = Raise JSONDecodeError.
Proof.
  intros ->. destruct s as [|[|p] t]; try reflexivity.
  repeat (destruct p as [p|p|]; try reflexivity).
Qed.

Lemma no_json_start_raises text :
  no_json_start text = true -> json_loads text = Raise JSONDecodeError.
Proof.
  unfold no_json_start, json_loads. intros H.
  apply json_loads_raise.
  destruct (skip_ws text) as [|c t]; [reflexivity|].
  apply scan_once_no_start. apply negb_true_iff. exact H.
Qed.

(** X9.  A configuration file that no JSON value starts, so an empty
    file, one of white space only, or one with a first character that
    opens no JSON value, stops main at load_config with a
    [JSONDecodeError]: nothing is asked, the file is left as it is
    and monitor_device is not called.  So does every exception that
    load_config raises. *)
Theorem main_corrupt_config text scan confirm choices answer :
  no_json_start text = true ->
  main (Some text) scan confirm choices answer =
    (Raises JSONDecodeError,
     {| run_console := [TitleRule]; run_file := Some text;
        run_monitor := None |})
  /\ (forall file e,
        load_config file = Raise e ->
        main file scan confirm choices answer =
          (Raises e,
           {| run_console := [TitleRule]; run_file := file;
              run_monitor := None |})).
Proof.
  intros H. split.
  - unfold main, load_config. rewrite (no_json_start_raises _ H). reflexivity.
  - intros file e He. unfold main. rewrite He. reflexivity.
Qed.

Lemma main_corrupt_config_witness :
  main (Some (str_of_string "  serial_number = ABC123")) (fun _ => []) true []
       None =
    (Raises JSONDecodeError,
     {| run_console := [TitleRule];
        run_file := Some (str_of_string "  serial_number = ABC123");
        run_monitor := None |})
  /\ (forall file e,
        load_config file = Raise e ->
        main file (fun _ => []) true [] None =
          (Raises e,
           {| run_console := [TitleRule]; run_file := file;
              run_monitor := None |})).
Proof.
  apply (main_corrupt_config (str_of_string "  serial_number = ABC123")
           (fun _ => []) true [] None).
  reflexivity.
Defined.


End MainRuns.

(** ** The session as a whole *)

Section Session.

Lemma with_buf_id st : with_buf (recv_buf st) st = st.
Proof. destruct st; reflexivity. Qed.

Lemma bind_buf_free {A B} (m : M A) (k : A -> M B) :
  buf_free m -> (forall a, buf_free (k a)) -> buf_free (bind m k).
Proof.
  unfold buf_free. intros Hm Hk st b. unfold bind. rewrite Hm.
  destruct (m st) as [[a|e] st1]; simpl; [apply Hk|reflexivity].
Qed.

Lemma try_pass_buf_free body handled :
  buf_free body -> buf_free (try_pass body handled).
Proof.
  unfold buf_free. intros Hb st b. unfold try_pass. rewrite Hb.
  destruct (body st) as [[a|e] st1]; simpl; [reflexivity|].
  destruct (handled e); reflexivity.
Qed.

Lemma ret_buf_free {A} (a : A) : buf_free (ret a).
Proof. intros st b. reflexivity. Qed.

Lemma for_each_buf_free {A} (body : A -> M unit) xs :
  (forall x, buf_free (body x)) -> buf_free (for_each body xs).
Proof.
  intros Hb. induction xs as [|x xs IH]; [apply ret_buf_free|].
  simpl for_each. apply bind_buf_free; [apply Hb|intros _; exact IH].
Qed.

Ltac buf_free_step :=
  apply bind_buf_free; [intros ? ?; reflexivity|intros ?].

Lemma handle_reading_buf_free threshold f t :
  buf_free (handle_reading threshold f t).
Proof.
  unfold handle_reading. do 5 buf_free_step.
  destruct (snd _); intros st b; reflexivity.
Qed.

Lemma handle_item_buf_free threshold item :
  buf_free (handle_item threshold item).
Proof.
  unfold handle_item. destruct item; try apply ret_buf_free.
  buf_free_step.
  destruct (py_eq_int _ 63); [|apply ret_buf_free].
  do 4 buf_free_step. apply handle_reading_buf_free.
Qed.

Lemma handle_message_buf_free threshold message :
  buf_free (handle_message threshold message).
Proof.
  unfold handle_message. buf_free_step.
  destruct (py_eq_int _ 0); [|apply ret_buf_free].
  do 2 buf_free_step.
  apply for_each_buf_free. intros item. apply handle_item_buf_free.
Qed.

Lemma process_line_buf_free threshold line :
  buf_free (process_line threshold line).
Proof.
  unfold process_line. apply try_pass_buf_free.
  do 2 buf_free_step. apply handle_message_buf_free.
Qed.

(** One iteration runs the decoder on the lines that the chunk
    completes. *)
Lemma monitor_iteration_stream threshold data st :
  contains CR (recv_buf st) = false ->
  monitor_iteration threshold data st =
  match for_each (process_line threshold)
                 (complete_lines (recv_buf st ++ data)) st with
  | (Ok _, st1) => (Ok tt, with_buf (remainder (recv_buf st ++ data)) st1)
  | (Raise e, st1) => (Raise e, with_buf (recv_buf st ++ data) st1)
  end.
Proof.
  intros Hb. unfold monitor_iteration.
  destruct data as [|b data].
  - cbn [is_empty]. rewrite app_nil_r, (complete_lines_no_cr _ Hb).
    simpl. rewrite (remainder_no_sep _ Hb), with_buf_id. reflexivity.
  - cbn [is_empty]. unfold bind at 1 2 3. cbn [get_buf set_buf recv_buf].
    fold (with_buf (recv_buf st ++ b :: data) st).
    destruct (contains CR (recv_buf st ++ b :: data)) eqn:Hc.
    + unfold bind at 1.
      rewrite (for_each_buf_free _ _ (process_line_buf_free threshold)).
      destruct (for_each (process_line threshold)
                  (complete_lines (recv_buf st ++ b :: data)) st)
        as [[[]|e] st1]; reflexivity.
    + rewrite (complete_lines_no_cr _ Hc). simpl.
      rewrite (remainder_no_sep _ Hc). reflexivity.
Qed.

(** The loop runs the decoder on the complete lines of the bytes read,
    whatever the chunks are. *)
Lemma monitor_loop_stream threshold chunks : forall st,
  contains CR (recv_buf st) = false ->
  exists buf,
    monitor_loop threshold chunks st =
    (fst (for_each (process_line threshold)
            (complete_lines (recv_buf st ++ concat chunks)) st),
     with_buf buf
       (snd (for_each (process_line threshold)
               (complete_lines (recv_buf st ++ concat chunks)) st))).
Proof.
  induction chunks as [|data rest IH]; intros st Hb.
  - exists (recv_buf st). simpl concat.
    rewrite app_nil_r, (complete_lines_no_cr _ Hb). simpl.
    rewrite with_buf_id. reflexivity.
  - unfold monitor_loop. simpl for_each. simpl concat.
    rewrite app_assoc, complete_lines_app, for_each_app.
    unfold bind at 1. rewrite (monitor_iteration_stream _ _ _ Hb).
    unfold bind.
    destruct (for_each (process_line threshold)
                (complete_lines (recv_buf st ++ data)) st)
      as [[[]|e] st1].
    + destruct (IH (with_buf (remainder (recv_buf st ++ data)) st1)
                  (remainder_no_cr _)) as [buf Hrest].
      unfold monitor_loop in Hrest. rewrite Hrest.
      cbn [with_buf recv_buf].
      fold (with_buf (remainder (recv_buf st ++ data)) st1).
      rewrite (for_each_buf_free _ _ (process_line_buf_free threshold)).
      exists buf. reflexivity.
    + exists (recv_buf st ++ data). reflexivity.
Qed.

(** X11.  What a session shows and clicks depends on the bytes read,
    not on how the reads cut them into chunks: monitor_device comes to
    the exception, the pressed state and the events that the decoder
    gives on the complete lines of the whole input, so two sequences
    of chunks with the same bytes give the same session. *)
Theorem session_independent_of_chunking threshold chunks chunks' :
  concat chunks = concat chunks' ->
  let session :=
    for_each (process_line threshold) (complete_lines (concat chunks))
             initial_state in
  fst (monitor_device threshold chunks)
    = match fst session with Ok _ => None | Raise e => Some e end
  /\ is_pressed (snd (monitor_device threshold chunks))
     = is_pressed (snd session)
  /\ events (snd (monitor_device threshold chunks)) = events (snd session)
  /\ fst (monitor_device threshold chunks)
     = fst (monitor_device threshold chunks')
  /\ is_pressed (snd (monitor_device threshold chunks))
     = is_pressed (snd (monitor_device threshold chunks'))
  /\ events (snd (monitor_device threshold chunks))
     = events (snd (monitor_device threshold chunks')).
Proof.
  intros Hc session.
  assert (H : forall cs,
             fst (monitor_device threshold cs)
             = match fst (for_each (process_line threshold)
                            (complete_lines (concat cs)) initial_state) with
               | Ok _ => None
               | Raise e => Some e
               end
             /\ is_pressed (snd (monitor_device threshold cs))
                = is_pressed (snd (for_each (process_line threshold)
                                     (complete_lines (concat cs)) initial_state))
             /\ events (snd (monitor_device threshold cs))
                = events (snd (for_each (process_line threshold)
                                 (complete_lines (concat cs)) initial_state))).
  { intros cs. unfold monitor_device.
    destruct (monitor_loop_stream threshold cs initial_state eq_refl)
      as [buf Hs].
    rewrite Hs. simpl app.
    destruct (for_each (process_line threshold) (complete_lines (concat cs))
                initial_state) as [[[]|e] st1]; repeat split. }
  destruct (H chunks) as (H1 & H2 & H3).
  destruct (H chunks') as (H1' & H2' & H3').
  rewrite <- Hc in H1', H2', H3'.
  repeat split; try assumption; congruence.
Qed.

Lemma session_independent_of_chunking_witness :
  let chunks := [json_bytes "{'m':0,'p':[[63,[5.5,1]]]}" ++ [CR]
                 ++ json_bytes "{'m':0,"; [];
                 json_bytes "'p':[[63,[0,0]]]}" ++ [CR] ++ json_bytes "{"] in
  let chunks' := [json_bytes "{'m':0,'p':[[63,"; json_bytes "[5.5,1]]]}";
                  [CR]; json_bytes "{'m':0,'p':[[63,[0,0]]]}" ++ [CR];
                  json_bytes "{"] in
  let session :=
    for_each (process_line 5) (complete_lines (concat chunks))
             initial_state in
  fst (monitor_device 5 chunks)
    = match fst session with Ok _ => None | Raise e => Some e end
  /\ is_pressed (snd (monitor_device 5 chunks)) = is_pressed (snd session)
  /\ events (snd (monitor_device 5 chunks)) = events (snd session)
  /\ fst (monitor_device 5 chunks) = fst (monitor_device 5 chunks')
  /\ is_pressed (snd (monitor_device 5 chunks))
     = is_pressed (snd (monitor_device 5 chunks'))
  /\ events (snd (monitor_device 5 chunks))
     = events (snd (monitor_device 5 chunks')).
Proof.
  intros chunks chunks'.
  apply (session_independent_of_chunking 5 chunks chunks').
  reflexivity.
Defined.

Lemma monitor_loop_escapes threshold chunks st e st' :
  monitor_loop threshold chunks st = (Raise e, st') -> escapes e = true.
Proof.
  revert st e st'. unfold monitor_loop. apply for_each_raises. intros data.
  unfold monitor_iteration. destruct (is_empty data); [discriminate|].
  apply bind_raises; [discriminate|]. intros buf.
  apply bind_raises; [discriminate|]. intros _.
  apply bind_raises; [discriminate|]. intros buf'.
  destruct (contains CR buf'); [|discriminate].
  apply bind_raises.
  - apply for_each_raises. intros line. apply process_line_escapes.
  - intros _. apply bind_raises; discriminate.
Qed.

(** X12.  Of the exceptions that the statements of the loop body
    raise themselves, in decoding, parsing, subscripting, formatting
    and comparing, the ones that can end a session are the four that
    its [except] clause does not name: [UnicodeDecodeError],
    [TypeError], [ValueError] and [OverflowError].  No
    [JSONDecodeError], [KeyError] or [IndexError] ever leaves the
    loop.  What the display and the click raise by themselves
    ([live.update], [pyautogui.click] with its fail-safe,
    [console.log]) and the limits of the interpreter (its recursion
    limit, its memory) are not part of the model. *)
Theorem session_ends_only_by_uncaught threshold chunks e :
  fst (monitor_device threshold chunks) = Some e ->
  escapes e = true /\ caught e = false
  /\ In e [UnicodeDecodeError; TypeError; ValueError; OverflowError].
Proof.
  intros H.
  assert (He : escapes e = true).
  { unfold monitor_device in H.
    destruct (monitor_loop threshold chunks initial_state)
      as [[[]|e1] st1] eqn:E; [discriminate|].
    simpl in H. inversion H; subst e1.
    eapply monitor_loop_escapes. exact E. }
  destruct e; try discriminate; simpl; tauto.
Qed.

Lemma session_ends_only_by_uncaught_witness :
  escapes ValueError = true /\ caught ValueError = false
  /\ In ValueError [UnicodeDecodeError; TypeError; ValueError; OverflowError].
Proof.
  apply (session_ends_only_by_uncaught 5
           [json_bytes "{'m':0,'p':[[63,[5,1]]]}" ++ [CR];
            json_bytes "{'m':0,'p':[[63,['5',1]]]}" ++ [CR]]).
  vm_compute. reflexivity.
Defined.

End Session.

(** ** Clicks and readings *)

Section Invariants.

Variable P : loop_state -> Prop.

Lemma bind_keeps {A B} (m : M A) (k : A -> M B) :
  keeps P m -> (forall a, keeps P (k a)) -> keeps P (bind m k).
Proof.
  intros Hm Hk st r st'. unfold bind.
  destruct (m st) as [[a|e] st1] eqn:E.
  - intros H HP. eapply Hk; [exact H|]. eapply Hm; eassumption.
  - intros H HP. inversion H; subst. eapply Hm; eassumption.
Qed.

Lemma try_pass_keeps body handled :
  keeps P body -> keeps P (try_pass body handled).
Proof.
  intros Hb st r st'. unfold try_pass.
  destruct (body st) as [[a|e] st1] eqn:E.
  - intros H HP. inversion H; subst. eapply Hb; eassumption.
  - destruct (handled e); intros H HP; inversion H; subst;
      eapply Hb; eassumption.
Qed.

Lemma ret_keeps {A} (a : A) : keeps P (ret a).
Proof. intros st r st' H HP. inversion H; subst. exact HP. Qed.

Lemma lift_keeps {A} (r : result A) : keeps P (lift r).
Proof. intros st r' st' H HP. inversion H; subst. exact HP. Qed.

Lemma for_each_keeps {A} (body : A -> M unit) xs :
  (forall x, keeps P (body x)) -> keeps P (for_each body xs).
Proof.
  intros Hb. induction xs as [|x xs IH]; [apply ret_keeps|].
  simpl for_each. apply bind_keeps; [apply Hb|intros _; exact IH].
Qed.

End Invariants.

Section ClickBound.

Lemma displayed_app evs evs' :
  displayed (evs ++ evs') = displayed evs ++ displayed evs'.
Proof. apply flat_map_app. Qed.

Lemma click_bound_shown st f pressed :
  click_bound st ->
  (pressed = is_pressed st \/ is_pressed st = true) ->
  click_bound {| recv_buf := recv_buf st; is_pressed := pressed;
                 events := events st ++ [Display f] |}.
Proof.
  unfold click_bound. cbn [is_pressed events].
  rewrite clicks_app, displayed_app, length_app.
  change (clicks [Display f]) with 0%nat.
  change (length (displayed [Display f])) with 1%nat.
  intros HP [Hp|Hp].
  - subst pressed. destruct (is_pressed st); lia.
  - rewrite Hp in HP. destruct pressed; lia.
Qed.

Lemma click_bound_clicked st f :
  click_bound st -> is_pressed st = false ->
  click_bound {| recv_buf := recv_buf st; is_pressed := true;
                 events := (events st ++ [Display f]) ++ [Click] |}.
Proof.
  unfold click_bound. cbn [is_pressed events].
  rewrite !clicks_app, !displayed_app, !length_app.
  change (clicks [Display f]) with 0%nat.
  change (clicks [Click]) with 1%nat.
  change (length (displayed [Display f])) with 1%nat.
  change (length (displayed [Click])) with 0%nat.
  intros HP Hp. rewrite Hp in HP. lia.
Qed.

Lemma handle_reading_click_bound threshold f t :
  keeps click_bound (handle_reading threshold f t).
Proof.
  intros st r st'.
  unfold handle_reading, bind, lift, emit, get_pressed, set_pressed, ret.
  destruct (format_2f f) as [[]|e];
    [|intros H HP; inversion H; subst; exact HP].
  cbn [is_pressed events recv_buf].
  destruct (click_logic threshold f t (is_pressed st)) as [[p c]|e] eqn:Ec.
  - apply click_is_rising_edge in Ec. subst c. cbn [fst snd].
    destruct (is_pressed st) eqn:Hp, p; cbn [negb andb]; intros H HP;
      inversion H; subst.
    + apply click_bound_shown; auto.
    + apply click_bound_shown; auto.
    + apply click_bound_clicked; assumption.
    + apply click_bound_shown; auto.
  - intros H HP. inversion H; subst. apply click_bound_shown; auto.
Qed.

Ltac keeps_step := apply bind_keeps; [apply lift_keeps|intros ?].

Lemma process_line_click_bound threshold line :
  keeps click_bound (process_line threshold line).
Proof.
  unfold process_line. apply try_pass_keeps. do 2 keeps_step.
  unfold handle_message. keeps_step.
  destruct (py_eq_int _ 0); [|apply ret_keeps]. do 2 keeps_step.
  apply for_each_keeps. intros item. unfold handle_item.
  destruct item; try apply ret_keeps. keeps_step.
  destruct (py_eq_int _ 63); [|apply ret_keeps]. do 4 keeps_step.
  apply handle_reading_click_bound.
Qed.

Lemma set_buf_click_bound buf : keeps click_bound (set_buf buf).
Proof. intros st r st' H HP. inversion H; subst. exact HP. Qed.

Lemma get_buf_click_bound : keeps click_bound get_buf.
Proof. intros st r st' H HP. inversion H; subst. exact HP. Qed.

Lemma monitor_loop_click_bound threshold chunks :
  keeps click_bound (monitor_loop threshold chunks).
Proof.
  unfold monitor_loop. apply for_each_keeps. intros data.
  unfold monitor_iteration. destruct (is_empty data); [apply ret_keeps|].
  apply bind_keeps; [apply get_buf_click_bound|intros buf].
  apply bind_keeps; [apply set_buf_click_bound|intros _].
  apply bind_keeps; [apply get_buf_click_bound|intros buf'].
  destruct (contains CR buf'); [|apply ret_keeps].
  apply bind_keeps;
    [apply for_each_keeps; intros line; apply process_line_click_bound|].
  intros _.
  apply bind_keeps; [apply get_buf_click_bound|intros buf''].
  apply set_buf_click_bound.
Qed.

(** X13.  At every point at which a session can end, with or without
    an exception, twice the number of clicks is at most the number of
    readings shown, plus one while the detector is pressed: a click
    needs a reading that presses, and the next click a reading that
    releases before it.  So there are never more clicks than readings
    shown, and none without a reading. *)
Theorem clicks_bounded_by_readings threshold chunks :
  let st := snd (monitor_device threshold chunks) in
  click_bound st
  /\ (clicks (events st) <= length (displayed (events st)))%nat.
Proof.
  intros st.
  assert (H : click_bound st).
  { subst st. unfold monitor_device.
    destruct (monitor_loop threshold chunks initial_state) as [[[]|e] st1] eqn:E;
      (eapply monitor_loop_click_bound; [exact E|]);
      unfold click_bound; simpl; lia. }
  split; [exact H|]. unfold click_bound in H.
  destruct (is_pressed st); lia.
Qed.

End ClickBound.

Section ThresholdMode.

Lemma click_logic_threshold_ignores_touched threshold f t t' pressed :
  threshold <> 1 ->
  click_logic threshold f t pressed = click_logic threshold f t' pressed.
Proof.
  intros Ht. unfold click_logic.
  apply Z.eqb_neq in Ht. rewrite Ht. reflexivity.
Qed.

(** X14.  In threshold mode, that is for every threshold other than
    1, the touched flag of a reading plays no part: two sequences of
    readings with the same forces take the detector through the same
    states and give the same clicks, and the loop code for a reading
    gives the same result whatever the flag. *)
Theorem threshold_mode_ignores_touched threshold readings1 readings2 pressed :
  threshold <> 1 ->
  map fst readings1 = map fst readings2 ->
  detect threshold readings1 pressed = detect threshold readings2 pressed
  /\ (forall f t t' st,
         handle_reading threshold f t st = handle_reading threshold f t' st).
Proof.
  intros Ht Hf. split.
  - revert readings2 pressed Hf.
    induction readings1 as [|[f1 t1] rest1 IH]; intros [|[f2 t2] rest2] pressed Hf;
      try discriminate; [reflexivity|].
    simpl in Hf. inversion Hf; subst f2. cbn [detect].
    rewrite (click_logic_threshold_ignores_touched threshold f1 t1 t2 pressed Ht).
    destruct (click_logic threshold f1 t2 pressed) as [[p c]|e]; [|reflexivity].
    simpl. rewrite (IH rest2 p); [reflexivity|assumption].
  - intros f t t' st. unfold handle_reading.
    unfold bind. destruct (lift (format_2f f) st) as [[[]|e] st1]; [|reflexivity].
    destruct (emit (Display f) st1) as [[[]|e] st2]; [|reflexivity].
    destruct (get_pressed st2) as [[p|e] st3]; [|reflexivity].
    rewrite (click_logic_threshold_ignores_touched threshold f t t' p Ht).
    reflexivity.
Qed.

Lemma threshold_mode_ignores_touched_witness :
  detect 5 [(PInt 3, true); (PFloat float_5_5, false); (PInt 4, true)] false
  = detect 5 [(PInt 3, false); (PFloat float_5_5, true); (PInt 4, false)] false
  /\ (forall f t t' st,
         handle_reading 5 f t st = handle_reading 5 f t' st).
Proof.
  apply (threshold_mode_ignores_touched 5
           [(PInt 3, true); (PFloat float_5_5, false); (PInt 4, true)]
           [(PInt 3, false); (PFloat float_5_5, true); (PInt 4, false)] false).
  - lia.
  - reflexivity.
Defined.

End ThresholdMode.

(** ** The characters of the configuration file *)

Section AsciiFile.
Local Open Scope N_scope.

Lemma hexdigit_ascii d : d < 16 -> is_plain_ascii (hexdigit d) = true.
Proof.
  intros Hd. unfold hexdigit, is_plain_ascii.
  destruct (d <? 10) eqn:E.
  - apply N.ltb_lt in E. apply orb_true_iff. right.
    apply andb_true_iff. split; apply N.leb_le; lia.
  - apply N.ltb_ge in E. apply orb_true_iff. right.
    apply andb_true_iff. split; apply N.leb_le; lia.
Qed.

Lemma escape_u_ascii n : n < 0x10000 -> forallb is_plain_ascii (escape_u n) = true.
Proof.
  intros Hn. unfold escape_u. cbn [forallb].
  rewrite !hexdigit_ascii; try reflexivity;
    try (apply N.mod_lt; discriminate).
  apply N.Div0.div_lt_upper_bound. exact Hn.
Qed.

Lemma surrogate_lt hi x : hi < 0x10000 -> N.lor hi (N.land x 0x3FF) < 0x10000.
Proof.
  intros Hhi.
  assert (Hx : N.land x 0x3FF < 0x10000).
  { change 0x3FF with (N.ones 10). rewrite N.land_ones.
    pose proof (N.mod_lt x (2 ^ 10)) as H. simpl in H.
    specialize (H ltac:(discriminate)). simpl. lia. }
  set (y := N.land x 0x3FF) in *. clearbody y.
  destruct (N.eq_dec (N.lor hi y) 0) as [E|E]; [rewrite E; reflexivity|].
  change 0x10000 with (2 ^ 16). apply N.log2_lt_pow2; [lia|].
  rewrite N.log2_lor.
  destruct (N.eq_dec hi 0) as [Eh|Eh], (N.eq_dec y 0) as [Ey|Ey]; subst;
    try (exfalso; apply E; reflexivity).
  - simpl N.log2 at 1. rewrite N.max_r by lia.
    apply N.log2_lt_pow2; [lia|exact Hx].
  - simpl N.log2 at 2. rewrite N.max_l by lia.
    apply N.log2_lt_pow2; [lia|exact Hhi].
  - apply N.max_lub_lt; apply N.log2_lt_pow2; try lia; assumption.
Qed.

Lemma escape_char_ascii c : forallb is_plain_ascii (escape_char c) = true.
Proof.
  unfold escape_char.
  repeat match goal with
         | |- context [if ?b then _ else _] =>
             destruct b eqn:?; [try reflexivity|]
         end.
  - unfold is_plain_ascii. cbn [forallb]. rewrite andb_true_r.
    apply orb_true_iff. right. assumption.
  - apply escape_u_ascii. apply N.ltb_lt. assumption.
  - cbv zeta. rewrite forallb_app, !escape_u_ascii; try reflexivity;
      apply surrogate_lt; reflexivity.
Qed.

Lemma flat_map_escape_ascii s :
  forallb is_plain_ascii (flat_map escape_char s) = true.
Proof.
  induction s as [|c s IH]; [reflexivity|].
  simpl flat_map. rewrite forallb_app, escape_char_ascii, IH. reflexivity.
Qed.

Lemma uint_digits_ascii u : forallb is_plain_ascii (uint_digits u) = true.
Proof. induction u; simpl; try assumption; reflexivity. Qed.

Lemma encode_int_ascii z : forallb is_plain_ascii (encode_int z) = true.
Proof.
  unfold encode_int. destruct (Z.to_int z); [|cbn [forallb]; simpl andb];
    apply uint_digits_ascii.
Qed.

(** X15.  The configuration file that save_config writes is plain
    ASCII, whatever the serial number and the threshold: every
    character of it is a line feed or lies between the space and the
    tilde, so the file reads the same in every encoding that [open]
    may choose. *)
Theorem config_file_is_ascii serial threshold file :
  exists text,
    save_config serial threshold file = Some text
    /\ forallb is_plain_ascii text = true.
Proof.
  exists (dump_config serial threshold). split; [reflexivity|].
  rewrite dump_config_shape.
  repeat (cbn [forallb];
          rewrite ?forallb_app, ?flat_map_escape_ascii, ?encode_int_ascii).
  reflexivity.
Qed.

End AsciiFile.

Section DecoderInput.

(** X16.  The lines that an iteration hands to the decoder are never
    empty and hold no [\r], whatever the receive buffer holds. *)
Theorem decoded_lines_are_nonempty buf :
  Forall (fun line => line <> [] /\ contains CR line = false)
         (complete_lines buf)
  /\ (forall recv_buf data,
        Forall (fun line => line <> [] /\ contains CR line = false)
               (fst (frame recv_buf data))).
Proof.
  assert (H : forall b,
             Forall (fun line => line <> [] /\ contains CR line = false)
                    (complete_lines b)).
  { intros b. unfold complete_lines. apply Forall_forall. intros line Hin.
    apply filter_In in Hin as [Hin Hne]. split.
    - intros E. subst line. discriminate.
    - pose proof (split_segments_no_sep CR b) as Hs.
      rewrite Forall_forall in Hs. apply Hs.
      destruct (split CR b) as [|seg segs] eqn:E; [destruct Hin|].
      rewrite <- E in *.
      rewrite (app_removelast_last [] (split_nonnil CR b)).
      apply in_or_app. left. exact Hin. }
  split; [apply H|].
  intros recv_buf data. unfold frame.
  destruct (is_empty data); [constructor|].
  destruct (contains CR (recv_buf ++ data)); [apply H|constructor].
Qed.

End DecoderInput.

(** ** Malformed payload entries *)

Section MalformedEntries.

Lemma handle_item_caught threshold item e st :
  entry_caught item = Some e ->
  handle_item threshold item st = (Raise e, st) /\ caught e = true.
Proof.
  destruct item as [| | | | |l|]; try discriminate.
  destruct l as [|port rest];
    [intros H; inversion H; subst; split; reflexivity|].
  unfold entry_caught, handle_item. unfold bind at 1. simpl.
  destruct (py_eq_int port 63); [|discriminate].
  destruct rest as [|[| | | |s|vs|dd] rest'];
    try discriminate;
    try (intros H; inversion H; subst; split; reflexivity).
  - destruct s as [|c [|c' s']]; try discriminate;
      intros H; inversion H; subst; split; reflexivity.
  - destruct vs as [|fv [|tv vs']]; try discriminate;
      intros H; inversion H; subst; split; reflexivity.
Qed.

(** X17.  A payload entry that is too short cuts its message short,
    silently: the readings of the entries before it are handled, the
    exception it raises is caught, and the entries after it are never
    looked at, whatever they are. *)
Theorem malformed_entry_cuts_message threshold line d m good bad rest e st :
  rbind (utf8_decode line) json_loads = Ok (PDict d) ->
  dict_get d (str_of_string "m") = Some m ->
  py_eq_int m 0 = true ->
  dict_get d (str_of_string "p") = Some (PList (good ++ bad :: rest)) ->
  forallb entry_ok good = true ->
  entry_caught bad = Some e ->
  process_line threshold line st =
  handle_readings threshold (port_readings good) st.
Proof.
  intros Hline Hm Hm0 Hp Hok Hbad.
  unfold process_line, try_pass, bind, lift.
  destruct (utf8_decode line) as [text|e0]; [|discriminate].
  simpl in Hline. rewrite Hline.
  unfold handle_message, bind, lift, getitem_str. rewrite Hm, Hm0, Hp. simpl.
  rewrite for_each_app. unfold bind.
  rewrite (handle_items_readings _ _ _ Hok).
  destruct (handle_readings threshold (port_readings good) st)
    as [[[]|e1] st1] eqn:E.
  - simpl for_each. unfold bind.
    destruct (handle_item_caught threshold bad e st1 Hbad) as [Hr Hc].
    rewrite Hr, Hc. reflexivity.
  - rewrite (handle_readings_uncaught _ _ _ _ _ E). reflexivity.
Qed.

Lemma malformed_entry_cuts_message_witness :
  process_line 5
    (json_bytes "{'m':0,'p':[[63,[5,1]],[63,[2]],[63,[0,0]]]}") initial_state =
  handle_readings 5
    (port_readings [PList [PInt 63; PList [PInt 5; PInt 1]]]) initial_state.
Proof.
  apply (malformed_entry_cuts_message 5 _
           (dict_of_pairs
              [(str_of_string "m", PInt 0);
               (str_of_string "p",
                PList [PList [PInt 63; PList [PInt 5; PInt 1]];
                       PList [PInt 63; PList [PInt 2]];
                       PList [PInt 63; PList [PInt 0; PInt 0]]])])
           (PInt 0)
           [PList [PInt 63; PList [PInt 5; PInt 1]]]
           (PList [PInt 63; PList [PInt 2]])
           [PList [PInt 63; PList [PInt 0; PInt 0]]]
           IndexError initial_state); reflexivity.
Defined.

End MalformedEntries.

(** ** The session on a well-formed stream *)

Section EndToEnd.

Lemma process_line_line_readings threshold line readings st :
  line_readings line = Some readings ->
  process_line threshold line st = handle_readings threshold readings st.
Proof.
  unfold line_readings.
  destruct (utf8_decode line) as [text|e] eqn:Eu; [|discriminate].
  destruct (json_loads text) as [v|e] eqn:Ej.
  - destruct v as [| | | | | |d]; try discriminate.
    assert (Hline : rbind (utf8_decode line) json_loads = Ok (PDict d))
      by (rewrite Eu; exact Ej).
    destruct (dict_get d (str_of_string "m")) as [m|] eqn:Em.
    + destruct (py_eq_int m 0) eqn:Em0.
      * destruct (dict_get d (str_of_string "p")) as [p|] eqn:Ep.
        -- destruct p as [| | | | |items|]; try discriminate.
           destruct (forallb entry_ok items) eqn:Eok; [|discriminate].
           intros H. inversion H; subst.
           eapply process_line_readings; eassumption.
        -- intros H. inversion H; subst.
           eapply missing_payload_ignored; eassumption.
      * intros H. inversion H; subst.
        eapply other_kind_ignored; eassumption.
    + intros H. inversion H; subst.
      eapply missing_kind_ignored; eassumption.
  - intros H. inversion H; subst.
    pose proof (json_loads_total _ _ Ej). subst e.
    eapply invalid_json_ignored; eassumption.
Qed.

Lemma process_lines_readings threshold lines : forall readings st,
  lines_readings lines = Some readings ->
  for_each (process_line threshold) lines st =
  handle_readings threshold readings st.
Proof.
  induction lines as [|line rest IH]; intros readings st H.
  - inversion H; subst. reflexivity.
  - simpl in H.
    destruct (line_readings line) as [rs|] eqn:E1; [|discriminate].
    destruct (lines_readings rest) as [rs'|] eqn:E2; [|discriminate].
    inversion H; subst. unfold handle_readings. rewrite for_each_app.
    simpl for_each. unfold bind.
    rewrite (process_line_line_readings _ _ _ _ E1).
    unfold handle_readings.
    destruct (for_each _ rs st) as [[[]|e] st1]; [|reflexivity].
    apply IH. reflexivity.
Qed.

Lemma displayed_reading_events readings : forall steps,
  length readings = length steps ->
  displayed (concat (map (fun rs => reading_events (fst rs) (snd rs))
                         (combine readings steps)))
  = map fst readings.
Proof.
  induction readings as [|r rest IH]; intros [|s steps] H; try discriminate;
    [reflexivity|].
  simpl in H. injection H as H. cbn [combine map concat].
  rewrite displayed_app, (IH _ H). unfold reading_events. cbn [fst snd].
  destruct (snd s); reflexivity.
Qed.

(** X18.  End to end: when every complete line of the input is a
    telemetry message with well-formed entries, or a line that the
    decoder drops, and every force can be shown, the session is the
    click logic run over the readings of the stream in order: it ends
    without an exception, shows each force once, and clicks exactly
    where [detect] does, whatever the chunks were.  The limits of the
    interpreter (its recursion limit, its memory, its limit on the
    digits of an int) are not part of the model. *)
Theorem session_runs_click_logic threshold chunks readings steps :
  lines_readings (complete_lines (concat chunks)) = Some readings ->
  forallb (fun r => displayable (fst r)) readings = true ->
  detect threshold readings false = Ok steps ->
  let st := snd (monitor_device threshold chunks) in
  fst (monitor_device threshold chunks) = None
  /\ is_pressed st = final_pressed steps false
  /\ events st = concat (map (fun rs => reading_events (fst rs) (snd rs))
                             (combine readings steps))
  /\ displayed (events st) = map fst readings
  /\ clicks (events st) = length (filter snd steps).
Proof.
  intros Hl Hd Hs st.
  destruct (monitor_loop_stream threshold chunks initial_state eq_refl)
    as [buf Hm].
  simpl app in Hm. rewrite (process_lines_readings _ _ _ _ Hl) in Hm.
  rewrite (handle_readings_detect threshold readings initial_state steps Hd Hs)
    in Hm.
  subst st. unfold monitor_device. rewrite Hm. cbn [fst snd with_buf].
  cbn [is_pressed events initial_state app].
  pose proof (detect_length _ _ _ _ Hs) as Hlen.
  repeat split.
  - apply displayed_reading_events. exact Hlen.
  - apply clicks_reading_events. exact Hlen.
Qed.

Lemma session_runs_click_logic_witness :
  let chunks := [json_bytes "{'m':0,'p':[[63,[5.5,1]],[12,[0]]]}" ++ [CR]
                 ++ json_bytes "{'m':2,"; [];
                 json_bytes "'p':7}" ++ [CR] ++ json_bytes "not json" ++ [CR];
                 json_bytes "{'m':0,'p':[[63,[0,0]],[63,[9,1]]]}" ++ [CR]
                 ++ json_bytes "{"] in
  let readings := [(PFloat float_5_5, true); (PInt 0, false); (PInt 9, true)] in
  let steps := [(true, true); (false, false); (true, true)] in
  let st := snd (monitor_device 5 chunks) in
  fst (monitor_device 5 chunks) = None
  /\ is_pressed st = final_pressed steps false
  /\ events st = concat (map (fun rs => reading_events (fst rs) (snd rs))
                             (combine readings steps))
  /\ displayed (events st) = map fst readings
  /\ clicks (events st) = length (filter snd steps).
Proof.
  intros chunks readings steps.
  apply (session_runs_click_logic 5 chunks readings steps); reflexivity.
Defined.

End EndToEnd.
